(** * SunSafe: the PM2.5 air-quality index of [src/App.js]

    The only computation of the application is the component [AQI], which
    turns a PM2.5 concentration into a US AQI value and a category by linear
    interpolation over a table of seven breakpoints.  This file embeds that
    function over IEEE-754 binary64 numbers (Rocq's primitive floats, the
    numbers JavaScript computes with) and proves its properties.

    Layout: the embedding of the component; the definitions the statements
    and proofs use; a small theory of binary64 rounding derived from the
    specification of the primitive floats ([SpecFloat], [FloatAxioms]); the
    properties of the component. *)

From Stdlib Require Import ZArith Lia Bool List String Floats.
Import ListNotations.

Set Warnings "-inexact-float".

Local Open Scope Z_scope.

(** ** JavaScript values and coercions *)

Module JS.

(** The values the [pm2_5] prop ranges over: a missing property
    ([undefined]), [null], the empty string, or a Number (NaN, the
    infinities and the two zeros included). *)
Inductive Value : Type :=
| Undefined
| Null
| EmptyString
| Number (x : float).

(** ECMAScript [ToNumber]: [undefined] is NaN, [null] is [+0], and the
    empty string is [+0]. *)
Definition ToNumber (v : Value) : float :=
  match v with
  | Undefined => nan
  | Null => 0%float
  | EmptyString => 0%float
  | Number x => x
  end.

(** The global [isNaN] coerces its argument with [ToNumber] first. *)
Definition isNaN (v : Value) : bool := is_nan (ToNumber v).

(** [a >= b] and [a <= b] on Numbers: false as soon as an operand is NaN. *)
Definition ge (a b : float) : bool := (b <=? a)%float.
Definition le (a b : float) : bool := (a <=? b)%float.

(** [a === b] on Numbers. *)
Definition strict_eq (a b : float) : bool := (a =? b)%float.

(** A Number is falsy when it is [+0], [-0] or NaN. *)
Definition falsy (x : float) : bool := (x =? 0)%float || is_nan x.

(** [a[i]] on an array: [undefined] outside [0 .. length - 1]. *)
Definition index {A : Type} (a : list A) (i : Z) : option A :=
  if i <? 0 then None else nth_error a (Z.to_nat i).

(** The Number of an integer. *)
Definition of_Z (n : Z) : float := SF2Prim (binary_normalize prec emax n 0 false).

(** [Math.round]: NaN, the infinities, the zeros and the integers are
    returned unchanged; any other [x] goes to the integer nearest to it,
    the larger one on a tie, that is to [floor (x + 1/2)] computed exactly
    (a Number with a negative exponent [e] is [m * 2^e]).  A result of zero
    keeps the sign of [x]. *)
Definition Math_round (x : float) : float :=
  match Prim2SF x with
  | S754_finite s m e =>
      if 0 <=? e then x
      else
        let n := (2 * cond_Zopp s (Z.pos m) + 2 ^ (- e)) / 2 ^ (- e + 1) in
        if n =? 0 then (if s then neg_zero else zero) else of_Z n
  | _ => x
  end.

End JS.

(** ** The breakpoint table *)

Record Breakpoint : Type := mkBreakpoint
  { AQIh : float; Cl : float; Ch : float; category : string }.

Definition breakpoints : list Breakpoint :=
  [ mkBreakpoint 50 0.0 12.0 "Good";
    mkBreakpoint 100 12.1 35.4 "Moderate";
    mkBreakpoint 150 35.5 55.4 "Unhealthy for Sensitive";
    mkBreakpoint 200 55.5 150.4 "Unhealthy";
    mkBreakpoint 300 150.5 250.4 "Very Unhealthy";
    mkBreakpoint 400 250.5 350.4 "Hazardous";
    mkBreakpoint 500 350.5 500.4 "Extremely Hazardous" ]%float.

(** ** The component *)

(** What the component renders: the dash, or the bold span with its colour,
    the index and the category. *)
Inductive Rendered : Type :=
| Dash
| Span (color : string) (aqi : float) (cat : string).

(** [breakpoints.indexOf(bp)]: the position of the first row strictly equal
    to [bp], or [-1].  The rows are distinct objects with distinct contents,
    so the object identity that [===] tests is equality of the fields. *)
Definition Breakpoint_eqb (a b : Breakpoint) : bool :=
  Leibniz.eqb (AQIh a) (AQIh b) && Leibniz.eqb (Cl a) (Cl b)
  && Leibniz.eqb (Ch a) (Ch b) && String.eqb (category a) (category b).

Fixpoint indexOf_from (rows : list Breakpoint) (bp : Breakpoint) (i : Z) : Z :=
  match rows with
  | [] => -1
  | r :: rest => if Breakpoint_eqb r bp then i else indexOf_from rest bp (i + 1)
  end.

Definition indexOf (rows : list Breakpoint) (bp : Breakpoint) : Z :=
  indexOf_from rows bp 0.

(** [breakpoints[breakpoints.indexOf(bp) - 1]?.AQIh || 0]: the optional
    chaining yields [undefined] when the indexed row is [undefined], and
    [||] replaces [undefined] and falsy numbers by [0]. *)
Definition AQIl_of (bp : Breakpoint) : float :=
  match option_map AQIh (JS.index breakpoints (indexOf breakpoints bp - 1)) with
  | None => 0%float
  | Some v => if JS.falsy v then 0%float else v
  end.

(** Whether the row matches: [pm2_5 >= bp.Cl && pm2_5 <= bp.Ch], both
    comparisons coercing [pm2_5] to a Number. *)
Definition in_band (pm2_5 : JS.Value) (bp : Breakpoint) : bool :=
  JS.ge (JS.ToNumber pm2_5) (Cl bp) && JS.le (JS.ToNumber pm2_5) (Ch bp).

(** The interpolation of lines 24-28 on the matching row [bp]. *)
Definition interpolate (pm2_5 : JS.Value) (bp : Breakpoint) : float :=
  let AQIl := AQIl_of bp in
  JS.Math_round
    (((AQIh bp - AQIl) / (Ch bp - Cl bp)) * (JS.ToNumber pm2_5 - Cl bp) + AQIl)%float.

(** The [for ... of] loop over the rows, with the variables [aqi] and [cat]
    as state; the first matching row assigns both and breaks. *)
Fixpoint scan (pm2_5 : JS.Value) (rows : list Breakpoint)
    (st : float * string) : float * string :=
  match rows with
  | [] => st
  | bp :: rest =>
      if in_band pm2_5 bp then (interpolate pm2_5 bp, category bp)
      else scan pm2_5 rest st
  end.

Definition color_of (aqi : float) : string :=
  if JS.le aqi 50 then "#227d34"
  else if JS.le aqi 100 then "#edc13b"
  else if JS.le aqi 150 then "#ea7417"
  else if JS.le aqi 200 then "#c81b19"
  else if JS.le aqi 300 then "#7e179a"
  else "#5a2210".

Definition is_undefined (v : JS.Value) : bool :=
  match v with JS.Undefined => true | _ => false end.

Definition is_null (v : JS.Value) : bool :=
  match v with JS.Null => true | _ => false end.

(** The component [AQI({ pm2_5 })]: the guard of line 10, the loop, the
    test [aqi === 0] of line 33 and the span. *)
Definition AQI (pm2_5 : JS.Value) : Rendered :=
  if is_undefined pm2_5 || is_null pm2_5 || JS.isNaN pm2_5 then Dash
  else
    let '(aqi, cat) := scan pm2_5 breakpoints (0%float, ""%string) in
    if JS.strict_eq aqi 0 then Dash
    else Span (color_of aqi) aqi cat.

(** ** Vocabulary of the statements *)

(** The Number a concentration denotes. *)
Definition num (x : float) : JS.Value := JS.Number x.

(** The index of a rendering, when it has one. *)
Definition value_of (r : Rendered) : option float :=
  match r with Dash => None | Span _ aqi _ => Some aqi end.

Definition first_row : Breakpoint := mkBreakpoint 50 0.0 12.0 "Good".

Definition categories : list string :=
  [ "Good"; "Moderate"; "Unhealthy for Sensitive"; "Unhealthy";
    "Very Unhealthy"; "Hazardous"; "Extremely Hazardous" ]%string.

(** Lines 33-41 on the final state of the loop. *)
Definition index_result (aqi : float) (cat : string) : Rendered :=
  if JS.strict_eq aqi 0 then Dash else Span (color_of aqi) aqi cat.

(** The slope and the argument of [Math.round] on a row. *)
Definition slope (bp : Breakpoint) : float :=
  ((AQIh bp - AQIl_of bp) / (Ch bp - Cl bp))%float.

Definition raw_index (x : float) (bp : Breakpoint) : float :=
  (slope bp * (x - Cl bp) + AQIl_of bp)%float.

(** ** Exact values of binary64 numbers

    A finite binary64 number is [m * 2^e] with [emin <= e]; [FV] is its value
    in units of [2^emin], an integer.  The infinities are given the first
    power of two out of range, so that [FV] is monotone on all numbers. *)

Definition FV (f : spec_float) : Z :=
  match f with
  | S754_zero _ | S754_nan => 0
  | S754_infinity s => cond_Zopp s (2 ^ (emax - emin))
  | S754_finite s m e => cond_Zopp s (Z.pos m * 2 ^ (e - emin))
  end.

(** Not NaN; finite and not negative; not negative. *)
Definition SFnum (f : spec_float) : bool :=
  match f with S754_nan => false | _ => true end.

Definition SFfin (f : spec_float) : bool :=
  match f with
  | S754_zero _ | S754_finite false _ _ => true
  | _ => false
  end.

Definition SFnn (f : spec_float) : bool :=
  match f with
  | S754_zero _ | S754_finite false _ _ | S754_infinity false => true
  | _ => false
  end.

Definition PV (x : float) : Z := FV (Prim2SF x).
Definition Fin (x : float) : bool := SFfin (Prim2SF x).
Definition NN (x : float) : bool := SFnn (Prim2SF x).
Definition isnum (x : float) : bool := SFnum (Prim2SF x).

(** Rounding to nearest, ties to even, of the non-negative integer [V] to a
    multiple of [2^n]; the result is the multiple's quotient. *)
Definition rne (V n : Z) : Z :=
  let q := V / 2 ^ n in
  match 2 * (V mod 2 ^ n) ?= 2 ^ n with
  | Lt => q
  | Gt => q + 1
  | Eq => if Z.even q then q else q + 1
  end.

(** Rounding to binary64 of the value [V] given in units of [2^b]: the
    number of bits dropped, the rounded value, and the rounded value
    saturated at the first power of two out of range. *)
Definition rnd_shift (b V : Z) : Z := fexp prec emax (Zdigits2 V + b) - b.
Definition rnd (b V : Z) : Z := rne V (rnd_shift b V) * 2 ^ rnd_shift b V.
Definition rnd_sat (b V : Z) : Z := Z.min (rnd b V) (2 ^ (emax - b)).

(** What [binary_round_aux] returns on an exact input whose rounded value, in
    units of [2^b], is [R]. *)
Definition bra_post (b : Z) (s : bool) (R : Z) (r : spec_float) : Prop :=
  valid_binary r = true /\
  match r with
  | S754_zero s' => s' = s /\ R = 0
  | S754_finite s' m' e' => s' = s /\ Z.pos m' * 2 ^ (e' - b) = R /\ R < 2 ^ (emax - b)
  | S754_infinity s' => s' = s /\ 2 ^ (emax - b) <= R
  | S754_nan => False
  end.

(** [floor (v + 1/2)] of a value given in units of [2^emin]. *)
Definition round_Z (V : Z) : Z := (2 * V + 2 ^ (- emin)) / 2 ^ (- emin + 1).

(** The facts about a row that the proofs evaluate once. *)
Definition row_facts (bp : Breakpoint) : Prop :=
  Fin (Cl bp) = true /\ Fin (Ch bp) = true /\ Fin (AQIl_of bp) = true /\
  Fin (slope bp) = true /\
  Fin (slope bp * (Ch bp - Cl bp)) = true /\
  Fin (raw_index (Ch bp) bp) = true /\
  round_Z (PV (raw_index (Ch bp) bp)) <= 500.

(** ** The component on every value of the language *)

(** The component is a plain function and [pm2_5] can be any value of the
    language.  The guard of line 10 compares it with [undefined] and [null]
    and then calls [isNaN], which coerces with [ToNumber]: a boolean, a
    Number and a string yield a Number, a BigInt and a Symbol throw a
    TypeError, and an object is first converted to a primitive
    ([Symbol.toPrimitive], [valueOf], [toString]), which runs code of the
    object and can throw.  Past the guard every use of [pm2_5] (the two
    comparisons of line 22 and the subtraction of line 27) coerces it the
    same way. *)
Module Any.

Inductive Primitive : Type :=
| Undefined
| Null
| Boolean (b : bool)
| Number (x : float)
| String (s : string)
| BigInt (n : Z)
| Symbol.

(** A call returns a value or throws. *)
Inductive Outcome (A : Type) : Type :=
| Returns (a : A)
| Throws.
Arguments Returns {A} a.
Arguments Throws {A}.

(** A value is a primitive or an object; an object is given by what its
    conversion to a primitive does, the same at each use. *)
Inductive Value : Type :=
| Prim (p : Primitive)
| Object (conversion : Outcome Primitive).

Definition ToPrimitive (v : Value) : Outcome Primitive :=
  match v with
  | Prim p => Returns p
  | Object conversion => conversion
  end.

Section Component.

(** [StringToNumber] of the language: the Number a string denotes, NaN when
    it denotes none. *)
Variable StringToNumber : string -> float.

Definition ToNumber (v : Value) : Outcome float :=
  match ToPrimitive v with
  | Throws => Throws
  | Returns Undefined => Returns nan
  | Returns Null => Returns 0%float
  | Returns (Boolean b) => Returns (if b then 1%float else 0%float)
  | Returns (Number x) => Returns x
  | Returns (String s) => Returns (StringToNumber s)
  | Returns (BigInt _) => Throws
  | Returns Symbol => Throws
  end.

(** The component: the guard of line 10, where [isNaN] throws or yields the
    Number [n] that the loop then works with, and lines 20-41. *)
Definition AQI (pm2_5 : Value) : Outcome Rendered :=
  match pm2_5 with
  | Prim Undefined | Prim Null => Returns Dash
  | _ =>
      match ToNumber pm2_5 with
      | Throws => Throws
      | Returns n =>
          if is_nan n then Returns Dash
          else
            let '(aqi, cat) := scan (JS.Number n) breakpoints (0%float, ""%string) in
            Returns (if JS.strict_eq aqi 0 then Dash else Span (color_of aqi) aqi cat)
      end
  end.

End Component.

(** The values of [JS.Value] among all values. *)
Definition of_value (v : JS.Value) : Value :=
  match v with
  | JS.Undefined => Prim Undefined
  | JS.Null => Prim Null
  | JS.EmptyString => Prim (String "")
  | JS.Number x => Prim (Number x)
  end.

End Any.

(** * The rest of [App.js]: [format], the sample and [getWeatherData] *)

(** ** The colour ladder on integers *)

(** The colour ladder of lines 36-37 on an integer index. *)
Definition threshold_color (n : Z) : string :=
  if n <=? 50 then "#227d34"
  else if n <=? 100 then "#edc13b"
  else if n <=? 150 then "#ea7417"
  else if n <=? 200 then "#c81b19"
  else if n <=? 300 then "#7e179a"
  else "#5a2210".

(** ** [format] *)

Section Format.

(** The text of a Number ([Number::toString]), which the template literal of
    line 5 inserts. *)
Variable NumberToString : float -> string.

(** ECMAScript [ToString] on the values of the model. *)
Definition ToString (v : JS.Value) : string :=
  match v with
  | JS.Undefined => "undefined"
  | JS.Null => "null"
  | JS.EmptyString => ""
  | JS.Number x => NumberToString x
  end.

Definition is_empty_string (v : JS.Value) : bool :=
  match v with JS.EmptyString => true | _ => false end.

(** [format(val, units)]; a missing [units] is [None], and [units || ""] is
    the units themselves or the empty string. *)
Definition format (val : JS.Value) (units : option string) : string :=
  if negb (is_undefined val) && negb (is_null val) && negb (is_empty_string val)
  then ToString val ++ match units with Some u => u | None => "" end
  else "—".

End Format.

(** ** The air-quality response and the sample it yields *)

(** [json.hourly]: each series is missing (or [null]) or an array; the
    entries of [time] are only counted. *)
Module Hourly.
Record t : Type := mk
  { time : option (list string);
    pm2_5 : option (list JS.Value);
    pm10 : option (list JS.Value);
    carbon_monoxide : option (list JS.Value);
    nitrogen_dioxide : option (list JS.Value);
    sulphur_dioxide : option (list JS.Value);
    ozone : option (list JS.Value) }.
End Hourly.

(** The object [aqiData] of lines 85-100. *)
Module AqiData.
Record t : Type := mk
  { pm2_5 : JS.Value;
    pm10 : JS.Value;
    carbon_monoxide : JS.Value;
    nitrogen_dioxide : JS.Value;
    sulphur_dioxide : JS.Value;
    ozone : JS.Value }.
End AqiData.

(** Lines 81-84: [idx] is 0 unless [json.hourly], [json.hourly.time] and
    [json.hourly.time.length] are all truthy, in which case it is the last
    position of [time]. *)
Definition idx (hourly : option Hourly.t) : Z :=
  match hourly with
  | Some h =>
      match Hourly.time h with
      | Some tm =>
          let length := Z.of_nat (List.length tm) in
          if length =? 0 then 0 else length - 1
      | None => 0
      end
  | None => 0
  end.

(** [series ? series[idx] : undefined]. *)
Definition at_idx (series : option (list JS.Value)) (i : Z) : JS.Value :=
  match series with
  | Some a => match JS.index a i with Some v => v | None => JS.Undefined end
  | None => JS.Undefined
  end.

(** [json.hourly ? { pm2_5: ..., ... } : null]. *)
Definition aqiData (hourly : option Hourly.t) : option AqiData.t :=
  match hourly with
  | Some h =>
      let i := idx hourly in
      Some (AqiData.mk (at_idx (Hourly.pm2_5 h) i) (at_idx (Hourly.pm10 h) i)
              (at_idx (Hourly.carbon_monoxide h) i)
              (at_idx (Hourly.nitrogen_dioxide h) i)
              (at_idx (Hourly.sulphur_dioxide h) i) (at_idx (Hourly.ozone h) i))
  | None => None
  end.

(** [result.aqi?.field]. *)
Definition aqi_field (field : AqiData.t -> JS.Value) (aqi : option AqiData.t) : JS.Value :=
  match aqi with Some d => field d | None => JS.Undefined end.

(** ** [getWeatherData] *)

(** The outcome of an awaited promise or of a block: a value, or a thrown
    error with its message. *)
Inductive Completion (A : Type) : Type :=
| Normal (a : A)
| Throw (message : string).
Arguments Normal {A} a.
Arguments Throw {A} message.

Definition bind {A B : Type} (c : Completion A) (k : A -> Completion B) : Completion B :=
  match c with Normal a => k a | Throw m => Throw m end.

Notation "x <- c ;; k" := (bind c (fun x => k))
  (at level 100, c at next level, right associativity).

(** A response: its [ok] flag and what [json()] resolves to or rejects with. *)
Record Response (B : Type) : Type := mkResponse
  { ok : bool; json : Completion B }.
Arguments mkResponse {B} ok json.
Arguments ok {B} r.
Arguments json {B} r.

(** What [json()] resolves to: [null], or a value whose property
    ([weatherData.current], [json.hourly]) is missing or an object.  Reading
    the property of [null] throws a TypeError. *)
Inductive Body (F : Type) : Type :=
| NullBody
| ObjectBody (field : option F).
Arguments NullBody {F}.
Arguments ObjectBody {F} field.

Record Current : Type := mkCurrent
  { temperature_2m : JS.Value; relative_humidity_2m : JS.Value; uv_index : JS.Value }.

Record Result : Type := mkResult
  { weather : option Current; aqi : option AqiData.t }.

(** The state of the component that [getWeatherData] writes. *)
Record State : Type := mkState
  { loading : bool; err : option string; result : option Result }.

Definition setLoading (b : bool) (st : State) : State :=
  mkState b (err st) (result st).
Definition setErr (e : option string) (st : State) : State :=
  mkState (loading st) e (result st).
Definition setResult (r : option Result) (st : State) : State :=
  mkState (loading st) (err st) r.

Section GetWeatherData.

(** The message of the TypeError thrown when a property (named by the
    argument) of [null] is read; the engine words it. *)
Variable TypeError_message : string -> string.

Definition read_property {F : Type} (property : string) (body : Body F)
    : Completion (option F) :=
  match body with
  | NullBody => Throw (TypeError_message property)
  | ObjectBody field => Normal field
  end.

(** The body of the [try] block, lines 69-105, given what the two [fetch]
    calls resolve to or reject with.  [json.hourly] is read at line 82, when
    the air-quality response is [ok]; [weatherData.current] is read last, at
    line 103. *)
Definition try_block (resWeather : Completion (Response (Body Current)))
    (resAQI : Completion (Response (Body Hourly.t))) : Completion Result :=
  resWeather <- resWeather ;;
  if negb (ok resWeather) then Throw "Failed weather fetch"
  else
    weatherData <- json resWeather ;;
    resAQI <- resAQI ;;
    aqiData <- (if ok resAQI
                then json_ <- json resAQI ;;
                     json_hourly <- read_property "hourly" json_ ;;
                     Normal (aqiData json_hourly)
                else Normal None) ;;
    weatherData_current <- read_property "current" weatherData ;;
    Normal (mkResult weatherData_current aqiData).

Definition getWeatherData (resWeather : Completion (Response (Body Current)))
    (resAQI : Completion (Response (Body Hourly.t))) (st : State) : State :=
  let st := setResult None (setErr None (setLoading true st)) in
  let st :=
    match try_block resWeather resAQI with
    | Normal r => setResult (Some r) st
    | Throw message => setErr (Some message) st
    end in
  setLoading false st.

End GetWeatherData.

(** The index line of the dashboard, line 186, shown once there is a result. *)
Definition AQI_line (st : State) : option Rendered :=
  match result st with
  | Some r => Some (AQI (aqi_field AqiData.pm2_5 (aqi r)))
  | None => None
  end.

(** * Powers of two and binary digits *)

Lemma pow2_pos n : 0 <= n -> 0 < 2 ^ n.
Proof. intros; apply Z.pow_pos_nonneg; lia. Qed.

Lemma pow2_le a b : 0 <= a <= b -> 2 ^ a <= 2 ^ b.
Proof. intros; apply Z.pow_le_mono_r; lia. Qed.

Lemma pow2_lt a b : 0 <= a < b -> 2 ^ a < 2 ^ b.
Proof. intros; apply Z.pow_lt_mono_r; lia. Qed.

Lemma pow2_add a b : 0 <= a -> 0 <= b -> 2 ^ (a + b) = 2 ^ a * 2 ^ b.
Proof. intros; apply Z.pow_add_r; lia. Qed.

Lemma digits2_pos_size p : digits2_pos p = Pos.size p.
Proof. induction p; simpl; congruence. Qed.

(** [Zdigits2 V] is the number of binary digits of [V]. *)
Lemma Zdigits2_bounds V :
  0 < V -> 2 ^ (Zdigits2 V - 1) <= V < 2 ^ Zdigits2 V.
Proof.
  destruct V as [|p|p]; try lia. intros _.
  unfold Zdigits2. rewrite digits2_pos_size.
  pose proof (Pos.size_gt p) as Hgt. pose proof (Pos.size_le p) as Hle.
  apply Pos2Z.pos_lt_pos in Hgt. apply Pos2Z.pos_le_pos in Hle.
  rewrite Pos2Z.inj_pow in Hgt, Hle.
  replace (Z.pos (Pos.size p)) with (Z.pos (Pos.size p) - 1 + 1) in Hle at 1 by lia.
  rewrite pow2_add in Hle by lia.
  change (2 ^ 1) with 2 in Hle. lia.
Qed.

Lemma Zdigits2_unique V d :
  2 ^ (d - 1) <= V < 2 ^ d -> 0 < V -> Zdigits2 V = d.
Proof.
  intros [Hl Hu] HV.
  destruct (Zdigits2_bounds V HV) as [Hl' Hu'].
  assert (Hd : 1 <= Zdigits2 V) by (destruct V; simpl in *; lia).
  assert (Hd0 : 0 < d).
  { destruct (Z_lt_le_dec 0 d); trivial.
    destruct (Z.eq_dec d 0) as [->|]; [simpl in Hu; lia|].
    rewrite (Z.pow_neg_r 2 d) in Hu by lia. lia. }
  destruct (Z_lt_le_dec (Zdigits2 V) d).
  - pose proof (pow2_le (Zdigits2 V) (d - 1)). lia.
  - destruct (Z_lt_le_dec d (Zdigits2 V)); [|lia].
    pose proof (pow2_le d (Zdigits2 V - 1)). lia.
Qed.

Lemma Zdigits2_shift m k :
  0 < m -> 0 <= k -> Zdigits2 (m * 2 ^ k) = Zdigits2 m + k.
Proof.
  intros Hm Hk. pose proof (pow2_pos k Hk).
  destruct (Zdigits2_bounds m Hm) as [Hl Hu].
  assert (Hd : 1 <= Zdigits2 m) by (destruct m; simpl in *; lia).
  apply Zdigits2_unique; [|nia].
  replace (Zdigits2 m + k - 1) with (Zdigits2 m - 1 + k) by lia.
  rewrite !pow2_add by lia. nia.
Qed.

Lemma Zdigits2_mono a b : 0 < a <= b -> Zdigits2 a <= Zdigits2 b.
Proof.
  intros [Ha Hab].
  destruct (Zdigits2_bounds a Ha) as [Hl _].
  destruct (Zdigits2_bounds b ltac:(lia)) as [_ Hu].
  assert (1 <= Zdigits2 a) by (destruct a; simpl in *; lia).
  destruct (Z_lt_le_dec (Zdigits2 b) (Zdigits2 a)); [|lia].
  assert (1 <= Zdigits2 b) by (destruct b; simpl in *; lia).
  pose proof (pow2_le (Zdigits2 b) (Zdigits2 a - 1)). lia.
Qed.

(** ** Rounding to a multiple of a power of two *)

Lemma rne_bounds V n : 0 <= n -> V / 2 ^ n <= rne V n <= V / 2 ^ n + 1.
Proof.
  intros. unfold rne. cbv zeta.
  destruct (2 * (V mod 2 ^ n) ?= 2 ^ n); try destruct (Z.even _); lia.
Qed.

Lemma rne_exact g n : 0 <= n -> rne (g * 2 ^ n) n = g.
Proof.
  intros Hn. pose proof (pow2_pos n Hn). unfold rne.
  rewrite Z.div_mul, Z.mod_mul by lia.
  destruct (Z.compare_spec (2 * 0) (2 ^ n)); [lia | reflexivity | lia].
Qed.

(** Multiples of [2^n] below and above [V] bound its rounding. *)
Lemma rne_ge_grid V g n : 0 <= n -> g * 2 ^ n <= V -> g <= rne V n.
Proof.
  intros Hn H. pose proof (pow2_pos n Hn).
  pose proof (rne_bounds V n Hn).
  assert (g <= V / 2 ^ n) by (apply Z.div_le_lower_bound; lia).
  lia.
Qed.

Lemma rne_le_grid V g n : 0 <= n -> V <= g * 2 ^ n -> rne V n <= g.
Proof.
  intros Hn H. pose proof (pow2_pos n Hn) as HP.
  destruct (Z.eq_dec V (g * 2 ^ n)) as [->|Hne].
  - rewrite rne_exact by lia. lia.
  - pose proof (rne_bounds V n Hn).
    assert (V / 2 ^ n < g) by (apply Z.div_lt_upper_bound; lia).
    lia.
Qed.

Lemma rne_mono V1 V2 n : 0 <= n -> V1 <= V2 -> rne V1 n <= rne V2 n.
Proof.
  intros Hn H. pose proof (pow2_pos n Hn) as HP.
  pose proof (Z.div_le_mono V1 V2 (2 ^ n) HP H) as Hq.
  destruct (Z.eq_dec (V1 / 2 ^ n) (V2 / 2 ^ n)) as [E|NE].
  - pose proof (Z.div_mod V1 (2 ^ n) ltac:(lia)) as D1.
    pose proof (Z.div_mod V2 (2 ^ n) ltac:(lia)) as D2.
    assert (Hr : V1 mod 2 ^ n <= V2 mod 2 ^ n) by (rewrite E in D1; lia).
    unfold rne. rewrite E.
    destruct (Z.compare_spec (2 * (V1 mod 2 ^ n)) (2 ^ n));
    destruct (Z.compare_spec (2 * (V2 mod 2 ^ n)) (2 ^ n));
    try destruct (Z.even _); lia.
  - pose proof (rne_bounds V1 n Hn). pose proof (rne_bounds V2 n Hn). lia.
Qed.

(** Rounding a value given in units of [2^b], with [b] no larger than the
    exponent of the subnormal numbers. *)
Section Rounding.

Variable b : Z.
Hypothesis Hb : b <= emin.

Lemma rnd_shift_nonneg V : 0 <= rnd_shift b V.
Proof. unfold rnd_shift, fexp. lia. Qed.

Lemma rnd_0 : rnd b 0 = 0.
Proof.
  unfold rnd. pose proof (rnd_shift_nonneg 0).
  replace (rne 0 _) with 0 by (symmetry; apply (rne_exact 0); trivial). reflexivity.
Qed.

(** A value on the grid of its own binade is not changed. *)
Lemma rnd_exact V : V mod 2 ^ rnd_shift b V = 0 -> rnd b V = V.
Proof.
  intros Hm. pose proof (rnd_shift_nonneg V) as Hs.
  pose proof (pow2_pos _ Hs) as HP.
  unfold rnd. apply Z.mod_divide in Hm; [|lia]. destruct Hm as [g Hg].
  rewrite Hg at 1. rewrite rne_exact by trivial. lia.
Qed.

(** Rounding is monotone: within a binade because [rne] is, and across
    binades because the powers of two are on every grid above them. *)
Lemma rnd_mono V1 V2 : 0 <= V1 <= V2 -> rnd b V1 <= rnd b V2.
Proof.
  intros [H1 H12].
  destruct (Z.eq_dec V1 0) as [->|H10].
  { rewrite rnd_0. unfold rnd. pose proof (rnd_shift_nonneg V2) as H0.
    pose proof (rne_ge_grid V2 0 _ H0 ltac:(lia)).
    pose proof (pow2_pos _ H0). nia. }
  assert (Hd : Zdigits2 V1 <= Zdigits2 V2) by (apply Zdigits2_mono; lia).
  pose proof (rnd_shift_nonneg V1) as S1.
  pose proof (rnd_shift_nonneg V2) as S2.
  pose proof (pow2_pos _ S1) as P1. pose proof (pow2_pos _ S2) as P2.
  destruct (Z.eq_dec (rnd_shift b V1) (rnd_shift b V2)) as [E|NE].
  - unfold rnd. rewrite E in *. pose proof (rne_mono V1 V2 _ S2 H12). nia.
  - assert (Hlt : rnd_shift b V1 < rnd_shift b V2) by (unfold rnd_shift, fexp in *; lia).
    assert (Hs2 : rnd_shift b V2 = Zdigits2 V2 - prec) by (unfold rnd_shift, fexp in *; lia).
    assert (Hd12 : Zdigits2 V1 < Zdigits2 V2) by (unfold rnd_shift, fexp in *; lia).
    destruct (Zdigits2_bounds V1 ltac:(lia)) as [_ U1].
    destruct (Zdigits2_bounds V2 ltac:(lia)) as [L2 _].
    assert (D1 : 1 <= Zdigits2 V1) by (destruct V1; simpl in *; lia).
    set (t := Z.max (Zdigits2 V1) (rnd_shift b V1)).
    assert (Ht : t <= Zdigits2 V2 - 1) by (unfold prec in *; lia).
    assert (A1 : rnd b V1 <= 2 ^ t).
    { unfold rnd.
      assert (rne V1 (rnd_shift b V1) <= 2 ^ (t - rnd_shift b V1)).
      { apply rne_le_grid; trivial. rewrite <- pow2_add by lia.
        replace (t - rnd_shift b V1 + rnd_shift b V1) with t by lia.
        pose proof (pow2_le (Zdigits2 V1) t). lia. }
      replace (2 ^ t) with (2 ^ (t - rnd_shift b V1) * 2 ^ rnd_shift b V1).
      - nia.
      - rewrite <- pow2_add by lia. f_equal; lia. }
    assert (A2 : 2 ^ (Zdigits2 V2 - 1) <= rnd b V2).
    { unfold rnd.
      assert (2 ^ (Zdigits2 V2 - 1 - rnd_shift b V2) <= rne V2 (rnd_shift b V2)).
      { apply rne_ge_grid; trivial. rewrite <- pow2_add by (unfold prec in *; lia).
        replace (Zdigits2 V2 - 1 - rnd_shift b V2 + rnd_shift b V2) with (Zdigits2 V2 - 1) by lia.
        lia. }
      replace (2 ^ (Zdigits2 V2 - 1)) with (2 ^ (Zdigits2 V2 - 1 - rnd_shift b V2) * 2 ^ rnd_shift b V2).
      - nia.
      - rewrite <- pow2_add by (unfold prec in *; lia). f_equal; lia. }
    pose proof (pow2_le t (Zdigits2 V2 - 1)). lia.
Qed.

Lemma rnd_sat_mono V1 V2 : 0 <= V1 <= V2 -> rnd_sat b V1 <= rnd_sat b V2.
Proof. intros. unfold rnd_sat. pose proof (rnd_mono V1 V2); lia. Qed.

End Rounding.

(** * The shift-and-round of [SpecFloat] *)

(** [shr] drops bits one at a time and keeps the last bit dropped and whether
    a lower bit was set: that is enough to round to nearest, ties to even. *)
Lemma iter_pos_nat {A : Type} (f : A -> A) p x :
  iter_pos f p x = Nat.iter (Pos.to_nat p) f x.
Proof.
  revert x. induction p as [p IH|p IH|]; intros x; cbn [iter_pos].
  - rewrite !IH, Pos2Nat.inj_xI.
    rewrite <- Nat.iter_succ_r. rewrite <- Nat.iter_add.
    f_equal. lia.
  - rewrite !IH, Pos2Nat.inj_xO. rewrite <- Nat.iter_add. f_equal. lia.
  - reflexivity.
Qed.

Lemma shr_1_spec m r s :
  0 <= m ->
  shr_1 (Build_shr_record m r s) = Build_shr_record (m / 2) (Z.odd m) (r || s).
Proof.
  intros Hm. rewrite <- Z.div2_div.
  destruct m as [|[p|p|]|p]; try lia; reflexivity.
Qed.

(** The record after [k + 1] steps, in terms of the quotient and remainder. *)
Lemma shr_iter V k :
  0 <= V ->
  Nat.iter (S k) shr_1 (Build_shr_record V false false) =
  Build_shr_record (V / 2 ^ (Z.of_nat k + 1))
    (Z.odd (V / 2 ^ Z.of_nat k)) (negb (V mod 2 ^ Z.of_nat k =? 0)).
Proof.
  intros HV. induction k as [|k IH].
  - rewrite Nat.iter_succ. change (Nat.iter 0 shr_1 ?x) with x. rewrite shr_1_spec by lia.
    change (2 ^ Z.of_nat 0) with 1. change (2 ^ (Z.of_nat 0 + 1)) with 2.
    rewrite Z.div_1_r, Z.mod_1_r. reflexivity.
  - rewrite Nat.iter_succ, IH.
    assert (Hk : 0 <= Z.of_nat k) by lia.
    pose proof (pow2_pos _ Hk) as HP.
    rewrite shr_1_spec by (apply Z.div_pos; [lia|apply pow2_pos; lia]).
    replace (Z.of_nat (S k)) with (Z.of_nat k + 1) by lia.
    set (j := Z.of_nat k) in *.
    rewrite Z.div_div by (try apply pow2_pos; lia).
    replace (2 ^ (j + 1) * 2) with (2 ^ (j + 1 + 1)) by (rewrite (pow2_add (j + 1) 1) by lia; reflexivity).
    f_equal.
    rewrite (pow2_add j 1) by lia. change (2 ^ 1) with 2.
    rewrite Z.rem_mul_r by lia.
    rewrite (Zmod_odd (V / 2 ^ j)).
    pose proof (Z.mod_pos_bound V (2 ^ j) HP).
    destruct (Z.odd (V / 2 ^ j));
    destruct (Z.eqb_spec (V mod 2 ^ j) 0) as [E0|NE0];
    match goal with |- _ = negb (?a =? 0) => destruct (Z.eqb_spec a 0) end;
    simpl; trivial; try lia; try nia.
Qed.

(** Rounding on the record of [shr] is [rne]. *)
Lemma round_shr V n :
  0 <= V -> 0 < n ->
  let mrs := fst (shr (Build_shr_record V false false) 0 n) in
  round_nearest_even (shr_m mrs) (loc_of_shr_record mrs) = rne V n.
Proof.
  intros HV Hn. destruct n as [|p|p]; try lia. cbv zeta. unfold shr, fst.
  rewrite iter_pos_nat.
  destruct (Pos2Nat.is_succ p) as [k Hk]. rewrite Hk.
  rewrite shr_iter by trivial.
  assert (Hp : Z.pos p = Z.of_nat k + 1) by lia. rewrite Hp.
  set (j := Z.of_nat k) in *. assert (Hj : 0 <= j) by lia.
  pose proof (pow2_pos _ Hj) as HP.
  unfold rne. cbv zeta.
  rewrite (pow2_add j 1) by lia. change (2 ^ 1) with 2.
  rewrite Z.rem_mul_r by lia.
  rewrite (Zmod_odd (V / 2 ^ j)).
  pose proof (Z.mod_pos_bound V (2 ^ j) HP).
  simpl shr_m. unfold loc_of_shr_record.
  destruct (Z.odd (V / 2 ^ j));
  destruct (Z.eqb_spec (V mod 2 ^ j) 0) as [E0|NE0]; simpl negb; cbv iota;
  unfold round_nearest_even;
  match goal with |- _ = match ?a ?= ?b with _ => _ end => destruct (Z.compare_spec a b) end;
  try reflexivity; try lia; try nia.
Qed.

Lemma shr_nonpos mrs e n : n <= 0 -> shr mrs e n = (mrs, e).
Proof. destruct n; try reflexivity; lia. Qed.

Lemma shr_pos mrs e n : 0 < n -> shr mrs e n = (fst (shr mrs 0 n), e + n).
Proof. destruct n; try lia; reflexivity. Qed.

Lemma rne_0 V : rne V 0 = V.
Proof.
  unfold rne. cbv zeta. change (2 ^ 0) with 1.
  rewrite Z.div_1_r, Z.mod_1_r. reflexivity.
Qed.

Lemma compare_mul_r a b c : 0 < c -> (a * c ?= b * c) = (a ?= b).
Proof.
  intros Hc. destruct (Z.compare_spec a b).
  - subst. apply Z.compare_refl.
  - apply Z.compare_lt_iff. nia.
  - apply Z.compare_gt_iff. nia.
Qed.

Lemma rne_scale m n k :
  0 <= n -> 0 <= k -> rne (m * 2 ^ k) (n + k) = rne m n.
Proof.
  intros Hn Hk. pose proof (pow2_pos n Hn). pose proof (pow2_pos k Hk).
  unfold rne. cbv zeta.
  rewrite pow2_add by lia.
  rewrite Z.div_mul_cancel_r by lia.
  rewrite Z.mul_mod_distr_r by lia.
  replace (2 * (m mod 2 ^ n * 2 ^ k)) with (2 * (m mod 2 ^ n) * 2 ^ k) by ring.
  rewrite compare_mul_r by lia. reflexivity.
Qed.

(** The two passes of [binary_round_aux]: the first drops the bits below the
    exponent of the binade and rounds, the second drops one more bit when the
    rounding carried into a new binade. *)
Lemma first_shift m e :
  e <= fexp prec emax (Zdigits2 (Z.pos m) + e) ->
  let '(mrs, e') := shr_fexp prec emax (Z.pos m) e loc_Exact in
  e' = fexp prec emax (Zdigits2 (Z.pos m) + e) /\
  round_nearest_even (shr_m mrs) (loc_of_shr_record mrs)
  = rne (Z.pos m) (fexp prec emax (Zdigits2 (Z.pos m) + e) - e).
Proof.
  intros He. unfold shr_fexp, shr_record_of_loc.
  set (E := fexp prec emax (Zdigits2 (Z.pos m) + e)) in *.
  destruct (Z.eq_dec (E - e) 0) as [H0|H0].
  - rewrite H0. simpl. rewrite rne_0. split; [lia|reflexivity].
  - rewrite shr_pos by lia. split; [lia|].
    apply round_shr; lia.
Qed.

Lemma second_shift q E :
  emin <= E -> 0 <= q <= 2 ^ prec ->
  shr_fexp prec emax q E loc_Exact =
  if q =? 2 ^ prec then (Build_shr_record 4503599627370496 false false, E + 1)
  else (Build_shr_record q false false, E).
Proof.
  intros HE [Hq0 Hq]. unfold shr_fexp, shr_record_of_loc.
  destruct (Z.eqb_spec q (2 ^ prec)) as [->|Hne].
  - replace (fexp prec emax (Zdigits2 (2 ^ prec) + E) - E) with 1.
    + reflexivity.
    + change (Zdigits2 (2 ^ prec)) with 54. unfold fexp, prec in *. lia.
  - apply shr_nonpos.
    destruct (Z.eq_dec q 0) as [->|Hq1].
    + simpl Zdigits2. unfold fexp, prec in *. lia.
    + assert (Zdigits2 q <= prec).
      { destruct (Z_lt_le_dec prec (Zdigits2 q)); [|lia].
        destruct (Zdigits2_bounds q ltac:(lia)) as [Hl _].
        pose proof (pow2_le prec (Zdigits2 q - 1)). unfold prec in *. lia. }
      unfold fexp. lia.
Qed.

Lemma rnd_of_scaled m e b :
  b <= e -> b <= emin -> e <= fexp prec emax (Zdigits2 (Z.pos m) + e) ->
  rnd b (Z.pos m * 2 ^ (e - b))
  = rne (Z.pos m) (fexp prec emax (Zdigits2 (Z.pos m) + e) - e)
    * 2 ^ (fexp prec emax (Zdigits2 (Z.pos m) + e) - b).
Proof.
  intros Hbe Hb He. unfold rnd, rnd_shift.
  rewrite Zdigits2_shift by lia.
  replace (Zdigits2 (Z.pos m) + (e - b) + b) with (Zdigits2 (Z.pos m) + e) by lia.
  set (E := fexp prec emax (Zdigits2 (Z.pos m) + e)) in *.
  replace (E - b) with ((E - e) + (e - b)) at 1 by lia.
  rewrite rne_scale by lia. reflexivity.
Qed.

(** [binary_round_aux] on an exact input [m * 2^e] with at least the bits of
    its binade: the result is valid and its value is the rounding of
    [m * 2^e], or it is the infinity when that rounding is out of range. *)
Lemma bra_spec s m e b :
  b <= e -> b <= emin -> e <= fexp prec emax (Zdigits2 (Z.pos m) + e) ->
  bra_post b s (rnd b (Z.pos m * 2 ^ (e - b)))
    (binary_round_aux prec emax s (Z.pos m) e loc_Exact).
Proof.
  intros Hbe Hb He. rewrite rnd_of_scaled by trivial.
  assert (Hemin : emin = -1074) by reflexivity.
  unfold binary_round_aux.
  pose proof (first_shift m e He) as H1.
  destruct (shr_fexp prec emax (Z.pos m) e loc_Exact) as [mrs e'].
  destruct H1 as [-> ->].
  set (d := Zdigits2 (Z.pos m)) in *.
  set (E := fexp prec emax (d + e)) in *.
  set (n := E - e) in *.
  set (q := rne (Z.pos m) n).
  assert (HE : emin <= E) by (unfold E, fexp; lia).
  assert (Hn : 0 <= n) by (unfold n; lia).
  pose proof (pow2_pos n Hn) as HPn.
  destruct (Zdigits2_bounds (Z.pos m) ltac:(lia)) as [Hml Hmu]. fold d in Hml, Hmu.
  assert (Hd : 1 <= d) by (unfold d; simpl; lia).
  assert (Hdn : d - n <= prec) by (unfold n, E, fexp; lia).
  pose proof (rne_bounds (Z.pos m) n Hn) as Hqb. fold q in Hqb.
  assert (Hq0 : 0 <= q).
  { assert (0 <= Z.pos m / 2 ^ n) by (apply Z.div_pos; lia). lia. }
  assert (Hq : q <= 2 ^ prec).
  { assert (Z.pos m / 2 ^ n < 2 ^ prec); [|lia].
    apply Z.div_lt_upper_bound; [lia|].
    rewrite <- pow2_add by (unfold prec; lia).
    pose proof (pow2_le d (n + prec)). unfold prec in *. lia. }
  assert (Hnorm : emin < E -> 2 ^ (prec - 1) <= q).
  { intros HEm. assert (Hn' : n = d - prec) by (unfold n, E, fexp in *; lia).
    assert (2 ^ (prec - 1) <= Z.pos m / 2 ^ n); [|lia].
    apply Z.div_le_lower_bound; [lia|].
    rewrite <- pow2_add by (unfold prec; lia).
    replace (n + (prec - 1)) with (d - 1) by lia. lia. }
  rewrite second_shift by (trivial; lia).
  assert (HEb : 0 <= E - b) by lia.
  pose proof (pow2_pos _ HEb) as HPE.
  destruct (Z.eqb_spec q (2 ^ prec)) as [Hq2|Hq2].
  - (* the mantissa overflowed to 2^prec *)
    simpl shr_m. cbv iota. rewrite Hq2.
    destruct (Z.leb_spec (E + 1) (emax - prec)) as [Hle|Hgt]; unfold bra_post.
    + split.
      * unfold valid_binary, bounded, canonical_mantissa.
        apply andb_true_intro; split; [apply Z.eqb_eq|apply Z.leb_le; lia].
        change (Z.pos (digits2_pos 4503599627370496)) with 53. unfold fexp, prec in *. lia.
      * split; [reflexivity|]. split.
        -- replace (E + 1 - b) with (1 + (E - b)) by lia.
           rewrite pow2_add by lia.
           change (2 ^ prec) with 9007199254740992. change (2 ^ 1) with 2. lia.
        -- rewrite <- pow2_add by (unfold prec; lia).
           apply pow2_lt. unfold prec, emax in *. lia.
    + split; [reflexivity|]. split; [reflexivity|].
      rewrite <- pow2_add by (unfold prec; lia).
      apply pow2_le. unfold prec, emax in *. lia.
  - simpl shr_m.
    destruct q as [|mq|mq] eqn:Eq; try lia; unfold bra_post.
    + split; [reflexivity|]. split; [reflexivity|]. lia.
    + destruct (Z.leb_spec E (emax - prec)) as [Hle|Hgt].
      * split.
        -- unfold valid_binary, bounded, canonical_mantissa.
           apply andb_true_intro; split; [apply Z.eqb_eq|apply Z.leb_le; lia].
           change (Z.pos (digits2_pos mq)) with (Zdigits2 (Z.pos mq)).
           destruct (Zdigits2_bounds (Z.pos mq) ltac:(lia)) as [Lq Uq].
           assert (1 <= Zdigits2 (Z.pos mq)) by (simpl; lia).
           assert (Zdigits2 (Z.pos mq) <= prec).
           { destruct (Z_lt_le_dec prec (Zdigits2 (Z.pos mq))); [|lia].
             pose proof (pow2_le prec (Zdigits2 (Z.pos mq) - 1)). unfold prec in *. lia. }
           destruct (Z.eq_dec E emin) as [Em|Em].
           ++ unfold fexp. lia.
           ++ assert (prec <= Zdigits2 (Z.pos mq)).
              { destruct (Z_lt_le_dec (Zdigits2 (Z.pos mq)) prec); [|lia].
                pose proof (pow2_le (Zdigits2 (Z.pos mq)) (prec - 1)).
                pose proof (Hnorm ltac:(lia)). unfold prec in *. lia. }
              unfold fexp. lia.
        -- split; [reflexivity|]. split; [reflexivity|].
           assert (Z.pos mq < 2 ^ prec) by lia.
           assert (2 ^ prec * 2 ^ (E - b) <= 2 ^ (emax - b)).
           { rewrite <- pow2_add by (unfold prec; lia). apply pow2_le. unfold prec, emax in *. lia. }
           nia.
      * split; [reflexivity|]. split; [reflexivity|].
        pose proof (Hnorm ltac:(unfold emin, emax, prec in *; lia)).
        assert (2 ^ (emax - b) <= 2 ^ (prec - 1) * 2 ^ (E - b)).
        { rewrite <- pow2_add by (unfold prec; lia). apply pow2_le. unfold prec, emax in *. lia. }
        nia.
Qed.

(** * Order and values of binary64 numbers *)

Lemma prec_val : prec = 53. Proof. reflexivity. Qed.
Lemma emax_val : emax = 1024. Proof. reflexivity. Qed.
Lemma emin_val : emin = -1074. Proof. reflexivity. Qed.

Ltac fconst :=
  pose proof prec_val; pose proof emax_val; pose proof emin_val.

(** The exponent and the number of digits of a valid finite number. *)
Lemma valid_finite s m e :
  valid_binary (S754_finite s m e) = true ->
  emin <= e <= emax - prec /\ Zdigits2 (Z.pos m) <= prec /\
  (emin < e -> Zdigits2 (Z.pos m) = prec) /\
  e = fexp prec emax (Zdigits2 (Z.pos m) + e).
Proof.
  unfold valid_binary, bounded, canonical_mantissa. intros H.
  apply andb_prop in H. destruct H as [H1 H2].
  apply Z.eqb_eq in H1. apply Z.leb_le in H2.
  change (Z.pos (digits2_pos m)) with (Zdigits2 (Z.pos m)) in H1.
  unfold fexp in *. lia.
Qed.

Lemma FV_finite_bounds s m e :
  valid_binary (S754_finite s m e) = true ->
  0 < Z.pos m * 2 ^ (e - emin) < 2 ^ (emax - emin).
Proof.
  intros H. destruct (valid_finite _ _ _ H) as (He & Hd & _ & _). fconst.
  destruct (Zdigits2_bounds (Z.pos m) ltac:(lia)) as [_ Hu].
  assert (Hp : 0 < 2 ^ (e - emin)) by (apply pow2_pos; lia).
  split; [lia|].
  assert (Z.pos m < 2 ^ prec).
  { assert (1 <= Zdigits2 (Z.pos m)) by (simpl; lia).
    pose proof (pow2_le (Zdigits2 (Z.pos m)) prec). lia. }
  assert (2 ^ prec * 2 ^ (e - emin) <= 2 ^ (emax - emin)).
  { rewrite <- pow2_add by lia. apply pow2_le. lia. }
  nia.
Qed.

(** On valid numbers the lexicographic comparison of [SFcompare] is the
    comparison of the values. *)
Lemma lex_value m1 e1 m2 e2 :
  valid_binary (S754_finite false m1 e1) = true ->
  valid_binary (S754_finite false m2 e2) = true ->
  match e1 ?= e2 with
  | Lt => Lt
  | Gt => Gt
  | Eq => Pos.compare_cont Eq m1 m2
  end = (Z.pos m1 * 2 ^ (e1 - emin) ?= Z.pos m2 * 2 ^ (e2 - emin)).
Proof.
  intros H1 H2. fconst.
  destruct (valid_finite _ _ _ H1) as (He1 & Hd1 & Hn1 & _).
  destruct (valid_finite _ _ _ H2) as (He2 & Hd2 & Hn2 & _).
  destruct (Zdigits2_bounds (Z.pos m1) ltac:(lia)) as [L1 U1].
  destruct (Zdigits2_bounds (Z.pos m2) ltac:(lia)) as [L2 U2].
  assert (D1 : 1 <= Zdigits2 (Z.pos m1)) by (simpl; lia).
  assert (D2 : 1 <= Zdigits2 (Z.pos m2)) by (simpl; lia).
  pose proof (pow2_le (Zdigits2 (Z.pos m1)) prec ltac:(lia)) as B1.
  pose proof (pow2_le (Zdigits2 (Z.pos m2)) prec ltac:(lia)) as B2.
  assert (P1 : 0 < 2 ^ (e1 - emin)) by (apply pow2_pos; lia).
  assert (P2 : 0 < 2 ^ (e2 - emin)) by (apply pow2_pos; lia).
  destruct (Z.compare_spec e1 e2) as [E|E|E].
  - subst e2. rewrite compare_mul_r by lia. reflexivity.
  - symmetry. apply Z.compare_lt_iff.
    rewrite (Hn2 ltac:(lia)) in L2.
    replace (e2 - emin) with ((e2 - e1 - 1) + (1 + (e1 - emin))) by lia.
    rewrite (pow2_add (e2 - e1 - 1)) by lia.
    rewrite (pow2_add 1) by lia. change (2 ^ 1) with 2.
    assert (0 < 2 ^ (e2 - e1 - 1)) by (apply pow2_pos; lia).
    change (2 ^ prec) with (2 * 2 ^ (prec - 1)) in B1.
    set (x := 2 ^ (e1 - emin)) in *. set (y := 2 ^ (e2 - e1 - 1)) in *.
    set (h := 2 ^ (prec - 1)) in *.
    assert (Z.pos m1 * x < 2 * h * x) by nia.
    assert (h * (1 * (2 * x)) <= Z.pos m2 * (y * (2 * x))).
    { apply Z.mul_le_mono_nonneg; try lia. apply Z.mul_le_mono_nonneg_r; lia. }
    lia.
  - symmetry. apply Z.compare_gt_iff.
    rewrite (Hn1 ltac:(lia)) in L1.
    replace (e1 - emin) with ((e1 - e2 - 1) + (1 + (e2 - emin))) by lia.
    rewrite (pow2_add (e1 - e2 - 1)) by lia.
    rewrite (pow2_add 1) by lia. change (2 ^ 1) with 2.
    assert (0 < 2 ^ (e1 - e2 - 1)) by (apply pow2_pos; lia).
    change (2 ^ prec) with (2 * 2 ^ (prec - 1)) in B2.
    set (x := 2 ^ (e2 - emin)) in *. set (y := 2 ^ (e1 - e2 - 1)) in *.
    set (h := 2 ^ (prec - 1)) in *.
    assert (Z.pos m2 * x < 2 * h * x) by nia.
    assert (h * (1 * (2 * x)) <= Z.pos m1 * (y * (2 * x))).
    { apply Z.mul_le_mono_nonneg; try lia. apply Z.mul_le_mono_nonneg_r; lia. }
    lia.
Qed.

Lemma SFcompare_FV a b :
  valid_binary a = true -> valid_binary b = true ->
  SFnum a = true -> SFnum b = true ->
  SFcompare a b = Some (FV a ?= FV b).
Proof.
  intros Va Vb Na Nb.
  assert (HI : 0 < 2 ^ (emax - emin)) by (fconst; apply pow2_pos; lia).
  destruct a as [sa|sa| |sa ma ea]; try discriminate;
  destruct b as [sb|sb| |sb mb eb]; try discriminate;
  try (pose proof (FV_finite_bounds _ _ _ Va) as Ba);
  try (pose proof (FV_finite_bounds _ _ _ Vb) as Bb);
  unfold SFcompare, FV, cond_Zopp;
  try destruct sa; try destruct sb;
  try rewrite (lex_value _ _ _ _ Va Vb);
  try (f_equal; symmetry;
       first [ apply Z.compare_eq_iff; lia
             | apply Z.compare_lt_iff; lia
             | apply Z.compare_gt_iff; lia ]).
  f_equal. rewrite Z.compare_opp.
  rewrite <- (lex_value mb eb ma ea Vb Va).
  rewrite (Z.compare_antisym ea eb).
  destruct (ea ?= eb); simpl; trivial.
  apply Pos.compare_cont_antisym.
Qed.

(** * The arithmetic operations on non-negative numbers *)

(** A binary64 number is its own rounding. *)
Lemma rnd_repr s m e :
  valid_binary (S754_finite s m e) = true ->
  rnd emin (Z.pos m * 2 ^ (e - emin)) = Z.pos m * 2 ^ (e - emin).
Proof.
  intros Hv. destruct (valid_finite _ _ _ Hv) as (He & _ & _ & Hc).
  rewrite rnd_of_scaled by lia. rewrite <- Hc.
  rewrite Z.sub_diag, rne_0. reflexivity.
Qed.

Lemma pos_iter_xO m d : Z.pos (Pos.iter xO m d) = Z.pos m * 2 ^ Z.pos d.
Proof.
  induction d as [|d IH] using Pos.peano_ind.
  - simpl. lia.
  - rewrite Pos.iter_succ, Pos2Z.inj_xO, IH, Pos2Z.inj_succ, Z.pow_succ_r by lia. ring.
Qed.

Lemma shl_align_spec m e e' b :
  b <= e -> b <= e' ->
  Z.pos (fst (shl_align m e e')) * 2 ^ (snd (shl_align m e e') - b) = Z.pos m * 2 ^ (e - b)
  /\ snd (shl_align m e e') = Z.min e e'.
Proof.
  intros Hb Hb'. unfold shl_align.
  destruct (e' - e) as [|d|d] eqn:Hd; simpl fst; simpl snd.
  - split; [reflexivity|lia].
  - split; [reflexivity|lia].
  - split; [|lia]. rewrite pos_iter_xO.
    replace (e - b) with (Z.pos d + (e' - b)) by lia.
    rewrite pow2_add by lia. ring.
Qed.

(** [binary_round] first aligns the mantissa to the exponent of its binade. *)
Lemma binary_round_spec s m e :
  emin <= e ->
  bra_post emin s (rnd emin (Z.pos m * 2 ^ (e - emin))) (binary_round prec emax s m e).
Proof.
  intros He. unfold binary_round.
  change (Z.pos (digits2_pos m)) with (Zdigits2 (Z.pos m)).
  set (E := fexp prec emax (Zdigits2 (Z.pos m) + e)).
  assert (HE : emin <= E) by (unfold E, fexp; lia).
  destruct (shl_align_spec m e E emin He HE) as [Hval Hexp].
  destruct (shl_align m e E) as [mz ez]. simpl fst in *. simpl snd in *.
  rewrite <- Hval. apply bra_spec; try lia.
  assert (Hdig : Zdigits2 (Z.pos mz) + ez = Zdigits2 (Z.pos m) + e).
  { assert (Hs : Z.pos mz = Z.pos m * 2 ^ (e - ez)).
    { assert (0 < 2 ^ (ez - emin)) by (apply pow2_pos; lia).
      replace (e - emin) with ((e - ez) + (ez - emin)) in Hval by lia.
      rewrite pow2_add in Hval by lia. nia. }
    rewrite Hs, Zdigits2_shift by lia. lia. }
  rewrite Hdig. fold E. lia.
Qed.

Lemma Zdigits2_pow2 k : 0 <= k -> Zdigits2 (2 ^ k) = k + 1.
Proof.
  intros Hk. pose proof (pow2_pos k Hk).
  apply Zdigits2_unique; [|lia].
  replace (k + 1 - 1) with k by lia. split; [lia|].
  apply pow2_lt; lia.
Qed.

Lemma Zdigits2_mul a b :
  0 < a -> 0 < b -> Zdigits2 a + Zdigits2 b - 1 <= Zdigits2 (a * b).
Proof.
  intros Ha Hb.
  destruct (Zdigits2_bounds a Ha) as [La _].
  destruct (Zdigits2_bounds b Hb) as [Lb _].
  assert (1 <= Zdigits2 a) by (destruct a; simpl in *; lia).
  assert (1 <= Zdigits2 b) by (destruct b; simpl in *; lia).
  assert (Hp : 2 ^ (Zdigits2 a - 1 + (Zdigits2 b - 1)) <= a * b).
  { rewrite pow2_add by lia.
    pose proof (pow2_pos (Zdigits2 a - 1)). pose proof (pow2_pos (Zdigits2 b - 1)).
    apply Z.mul_le_mono_nonneg; lia. }
  assert (Hk : 0 <= Zdigits2 a - 1 + (Zdigits2 b - 1)) by lia.
  pose proof (Zdigits2_mono _ _ (conj (pow2_pos _ Hk) Hp)) as Hm.
  rewrite Zdigits2_pow2 in Hm by lia. lia.
Qed.

(** Multiplication of two non-negative finite numbers. *)
Lemma SFmul_nonneg a b :
  valid_binary a = true -> valid_binary b = true ->
  SFfin a = true -> SFfin b = true ->
  SFnn (SF64mul a b) = true /\
  FV (SF64mul a b) * 2 ^ (- emin) = rnd_sat (2 * emin) (FV a * FV b).
Proof.
  intros Va Vb Fa Fb. fconst.
  assert (R0 : rnd_sat (2 * emin) 0 = 0).
  { unfold rnd_sat. rewrite rnd_0 by lia.
    pose proof (pow2_pos (emax - 2 * emin)). lia. }
  destruct a as [sa|sa| |[] ma ea]; try discriminate;
  destruct b as [sb|sb| |[] mb eb]; try discriminate;
  unfold SF64mul, SFmul; cbn [FV cond_Zopp];
  rewrite ?Z.mul_0_l, ?Z.mul_0_r, ?R0; try (split; reflexivity).
  destruct (valid_finite _ _ _ Va) as (Hea & Hda & Hna & _).
  destruct (valid_finite _ _ _ Vb) as (Heb & Hdb & Hnb & _).
  assert (Hprod : Z.pos ma * 2 ^ (ea - emin) * (Z.pos mb * 2 ^ (eb - emin))
                  = Z.pos (ma * mb) * 2 ^ (ea + eb - 2 * emin)).
  { replace (ea + eb - 2 * emin) with ((ea - emin) + (eb - emin)) by lia.
    rewrite pow2_add, Pos2Z.inj_mul by lia. ring. }
  rewrite Hprod.
  assert (Hsh : ea + eb <= fexp prec emax (Zdigits2 (Z.pos (ma * mb)) + (ea + eb))).
  { pose proof (Zdigits2_mul (Z.pos ma) (Z.pos mb) ltac:(lia) ltac:(lia)) as Hd.
    rewrite <- Pos2Z.inj_mul in Hd.
    assert (1 <= Zdigits2 (Z.pos ma)) by (simpl; lia).
    assert (1 <= Zdigits2 (Z.pos mb)) by (simpl; lia).
    unfold fexp. lia. }
  pose proof (bra_spec false (ma * mb) (ea + eb) (2 * emin) ltac:(lia) ltac:(lia) Hsh) as [Hval Hpost].
  simpl xorb.
  destruct (binary_round_aux prec emax false _ _ _) as [s|s| |s m e]; try contradiction.
  - destruct Hpost as [-> HR]. split; [reflexivity|].
    cbn [FV cond_Zopp]. unfold rnd_sat. rewrite HR.
    pose proof (pow2_pos (emax - 2 * emin)). lia.
  - destruct Hpost as [-> HR]. split; [reflexivity|].
    cbn [FV cond_Zopp]. unfold rnd_sat. rewrite <- pow2_add by lia.
    replace (emax - emin + - emin) with (emax - 2 * emin) by lia. lia.
  - destruct Hpost as (-> & HR & Hlt). split; [reflexivity|].
    cbn [FV cond_Zopp]. unfold rnd_sat. rewrite <- HR in *.
    destruct (valid_finite _ _ _ Hval) as (He & _).
    rewrite <- Z.mul_assoc, <- pow2_add by lia.
    replace (e - emin + - emin) with (e - 2 * emin) by lia. lia.
Qed.

Lemma SFfin_bounds a :
  valid_binary a = true -> SFfin a = true -> 0 <= FV a < 2 ^ (emax - emin).
Proof.
  intros Va Fa. fconst. pose proof (pow2_pos (emax - emin) ltac:(lia)).
  destruct a as [s|s| |[] m e]; try discriminate; cbn [FV cond_Zopp]; try lia.
  pose proof (FV_finite_bounds _ _ _ Va). lia.
Qed.

Lemma SFfin_rnd a :
  valid_binary a = true -> SFfin a = true -> rnd emin (FV a) = FV a.
Proof.
  intros Va Fa.
  destruct a as [s|s| |[] m e]; try discriminate; cbn [FV cond_Zopp].
  - apply rnd_0; lia.
  - apply (rnd_repr false); trivial.
Qed.

Lemma aligned_value m e ez :
  emin <= ez -> ez <= e ->
  Z.pos (fst (shl_align m e ez)) * 2 ^ (ez - emin) = Z.pos m * 2 ^ (e - emin).
Proof.
  intros H1 H2.
  destruct (shl_align_spec m e ez emin ltac:(lia) ltac:(lia)) as [Hv Hs].
  rewrite Hs in Hv. replace (Z.min e ez) with ez in Hv by lia. exact Hv.
Qed.

(** Subtraction of non-negative finite numbers with a non-negative result. *)
Lemma SFsub_nonneg a c :
  valid_binary a = true -> valid_binary c = true ->
  SFfin a = true -> SFfin c = true -> FV c <= FV a ->
  SFfin (SF64sub a c) = true /\ FV (SF64sub a c) = rnd emin (FV a - FV c).
Proof.
  intros Va Vc Fa Fc Hle. fconst.
  pose proof (SFfin_bounds a Va Fa) as Ba. pose proof (SFfin_bounds c Vc Fc) as Bc.
  pose proof (SFfin_rnd a Va Fa) as Ra.
  destruct a as [sa|sa| |[] ma ea]; try discriminate;
  destruct c as [sc|sc| |[] mc ec]; try discriminate;
  unfold SF64sub, SFsub; cbn [FV cond_Zopp] in *.
  - rewrite rnd_0 by lia. destruct sa, sc; split; reflexivity.
  - pose proof (FV_finite_bounds _ _ _ Vc). lia.
  - rewrite Z.sub_0_r, Ra. split; reflexivity.
  - destruct (valid_finite _ _ _ Va) as (Hea & _).
    destruct (valid_finite _ _ _ Vc) as (Hec & _).
    set (ez := Z.min ea ec).
    pose proof (aligned_value ma ea ez ltac:(lia) ltac:(lia)) as HA.
    pose proof (aligned_value mc ec ez ltac:(lia) ltac:(lia)) as HC.
    set (A := Z.pos (fst (shl_align ma ea ez))) in *.
    set (C := Z.pos (fst (shl_align mc ec ez))) in *.
    assert (HP : 0 < 2 ^ (ez - emin)) by (apply pow2_pos; lia).
    assert (HM : (A - C) * 2 ^ (ez - emin)
                 = Z.pos ma * 2 ^ (ea - emin) - Z.pos mc * 2 ^ (ec - emin)) by lia.
    rewrite <- HM.
    assert (Hmono : rnd emin ((A - C) * 2 ^ (ez - emin)) < 2 ^ (emax - emin)).
    { rewrite HM.
      pose proof (rnd_mono emin ltac:(lia)
                    (Z.pos ma * 2 ^ (ea - emin) - Z.pos mc * 2 ^ (ec - emin))
                    (Z.pos ma * 2 ^ (ea - emin)) ltac:(lia)).
      lia. }
    destruct (A - C) as [|p|p] eqn:EM; unfold binary_normalize.
    + rewrite Z.mul_0_l, rnd_0 by lia. split; reflexivity.
    + pose proof (binary_round_spec false p ez ltac:(lia)) as [_ Hpost].
      destruct (binary_round prec emax false p ez) as [s|s| |s m e]; try contradiction.
      * destruct Hpost as [-> HR]. split; [reflexivity|]. cbn [FV]. lia.
      * destruct Hpost as [-> HR]. lia.
      * destruct Hpost as (-> & HR & _). split; [reflexivity|]. cbn [FV cond_Zopp]. lia.
    + nia.
Qed.

(** Addition of non-negative finite numbers. *)
Lemma SFadd_nonneg a c :
  valid_binary a = true -> valid_binary c = true ->
  SFfin a = true -> SFfin c = true ->
  SFnn (SF64add a c) = true /\ FV (SF64add a c) = rnd_sat emin (FV a + FV c).
Proof.
  intros Va Vc Fa Fc. fconst.
  pose proof (SFfin_bounds a Va Fa) as Ba. pose proof (SFfin_bounds c Vc Fc) as Bc.
  pose proof (SFfin_rnd a Va Fa) as Ra. pose proof (SFfin_rnd c Vc Fc) as Rc.
  pose proof (pow2_pos (emax - emin) ltac:(lia)) as HI.
  destruct a as [sa|sa| |[] ma ea]; try discriminate;
  destruct c as [sc|sc| |[] mc ec]; try discriminate;
  unfold SF64add, SFadd, rnd_sat; cbn [FV cond_Zopp] in *.
  - rewrite rnd_0 by lia. destruct sa, sc; split; try reflexivity; cbn [FV]; lia.
  - rewrite Z.add_0_l, Rc. split; [reflexivity|]. cbn [FV cond_Zopp]. lia.
  - rewrite Z.add_0_r, Ra. split; [reflexivity|]. cbn [FV cond_Zopp]. lia.
  - destruct (valid_finite _ _ _ Va) as (Hea & _).
    destruct (valid_finite _ _ _ Vc) as (Hec & _).
    set (ez := Z.min ea ec).
    pose proof (aligned_value ma ea ez ltac:(lia) ltac:(lia)) as HA.
    pose proof (aligned_value mc ec ez ltac:(lia) ltac:(lia)) as HC.
    set (A := fst (shl_align ma ea ez)) in *.
    set (C := fst (shl_align mc ec ez)) in *.
    assert (HM : Z.pos (A + C) * 2 ^ (ez - emin)
                 = Z.pos ma * 2 ^ (ea - emin) + Z.pos mc * 2 ^ (ec - emin)).
    { rewrite Pos2Z.inj_add. lia. }
    rewrite <- HM. change (Z.pos A + Z.pos C) with (Z.pos (A + C)).
    unfold binary_normalize.
    pose proof (binary_round_spec false (A + C) ez ltac:(lia)) as [_ Hpost].
    destruct (binary_round prec emax false (A + C) ez) as [s|s| |s m e]; try contradiction.
    + destruct Hpost as [-> HR]. split; [reflexivity|]. cbn [FV]. lia.
    + destruct Hpost as [-> HR]. split; [reflexivity|]. cbn [FV cond_Zopp]. lia.
    + destruct Hpost as (-> & HR & Hlt). split; [reflexivity|]. cbn [FV cond_Zopp]. lia.
Qed.

(** ** Primitive floats *)

(** [PV] is the value of a primitive float; [Fin] says finite and not
    negative.  The comparisons of primitive floats are the comparisons of
    their values as soon as no operand is NaN. *)
Lemma Fin_bounds x : Fin x = true -> 0 <= PV x < 2 ^ (emax - emin).
Proof. apply SFfin_bounds, Prim2SF_valid. Qed.

Lemma Fin_isnum x : Fin x = true -> isnum x = true.
Proof. unfold Fin, isnum. destruct (Prim2SF x) as [| | |[]]; trivial; discriminate. Qed.

Lemma NN_Fin x : NN x = true -> PV x < 2 ^ (emax - emin) -> Fin x = true.
Proof.
  intros Hn Hlt. unfold NN, Fin, PV in *.
  destruct (Prim2SF x) as [|[]| |[]]; trivial; try discriminate Hn.
  cbn [FV cond_Zopp] in Hlt. lia.
Qed.

Lemma compare_PV x y :
  isnum x = true -> isnum y = true ->
  SFcompare (Prim2SF x) (Prim2SF y) = Some (PV x ?= PV y).
Proof. intros; apply SFcompare_FV; trivial; apply Prim2SF_valid. Qed.

Lemma compare_isnum x y c :
  SFcompare (Prim2SF x) (Prim2SF y) = Some c -> isnum x = true /\ isnum y = true.
Proof.
  unfold isnum. destruct (Prim2SF x), (Prim2SF y); simpl; try discriminate; auto.
Qed.

Lemma leb_PV x y :
  isnum x = true -> isnum y = true -> (x <=? y)%float = (PV x <=? PV y).
Proof.
  intros Hx Hy. rewrite leb_spec. unfold SFleb. rewrite compare_PV by trivial.
  unfold Z.leb. destruct (PV x ?= PV y); reflexivity.
Qed.

Lemma ltb_PV x y :
  isnum x = true -> isnum y = true -> (x <? y)%float = (PV x <? PV y).
Proof.
  intros Hx Hy. rewrite ltb_spec. unfold SFltb. rewrite compare_PV by trivial.
  unfold Z.ltb. destruct (PV x ?= PV y); reflexivity.
Qed.

Lemma eqb_PV x y :
  isnum x = true -> isnum y = true -> (x =? y)%float = (PV x =? PV y).
Proof.
  intros Hx Hy. rewrite eqb_spec. unfold SFeqb. rewrite compare_PV by trivial.
  destruct (Z.compare_spec (PV x) (PV y)); destruct (Z.eqb_spec (PV x) (PV y));
  trivial; lia.
Qed.

Lemma leb_true x y :
  (x <=? y)%float = true -> isnum x = true /\ isnum y = true /\ PV x <= PV y.
Proof.
  intros H. assert (Hn : isnum x = true /\ isnum y = true).
  { rewrite leb_spec in H. unfold SFleb in H.
    destruct (SFcompare (Prim2SF x) (Prim2SF y)) eqn:E; [|discriminate].
    eapply compare_isnum; eauto. }
  destruct Hn as [Hx Hy]. rewrite leb_PV in H by trivial.
  apply Z.leb_le in H. auto.
Qed.

Lemma ltb_true x y :
  (x <? y)%float = true -> isnum x = true /\ isnum y = true /\ PV x < PV y.
Proof.
  intros H. assert (Hn : isnum x = true /\ isnum y = true).
  { rewrite ltb_spec in H. unfold SFltb in H.
    destruct (SFcompare (Prim2SF x) (Prim2SF y)) eqn:E; [|discriminate].
    eapply compare_isnum; eauto. }
  destruct Hn as [Hx Hy]. rewrite ltb_PV in H by trivial.
  apply Z.ltb_lt in H. auto.
Qed.

Lemma isnum_nonneg_Fin x :
  isnum x = true -> 0 <= PV x < 2 ^ (emax - emin) -> Fin x = true.
Proof.
  intros Hn [H0 H1]. fconst. pose proof (pow2_pos (emax - emin) ltac:(lia)).
  pose proof (Prim2SF_valid x) as Hv. unfold isnum, Fin, PV in *.
  destruct (Prim2SF x) as [s|[]| |[] m e]; trivial; try discriminate;
  cbn [FV cond_Zopp] in *; try lia.
  pose proof (FV_finite_bounds _ _ _ Hv). lia.
Qed.

Lemma mul_PV x y :
  Fin x = true -> Fin y = true ->
  NN (x * y) = true /\ PV (x * y) * 2 ^ (- emin) = rnd_sat (2 * emin) (PV x * PV y).
Proof.
  intros Hx Hy. unfold NN, PV. rewrite mul_spec.
  apply SFmul_nonneg; trivial; apply Prim2SF_valid.
Qed.

Lemma sub_PV x c :
  Fin x = true -> Fin c = true -> PV c <= PV x ->
  Fin (x - c) = true /\ PV (x - c) = rnd emin (PV x - PV c).
Proof.
  intros Hx Hc Hle. unfold Fin, PV. rewrite sub_spec.
  apply SFsub_nonneg; trivial; apply Prim2SF_valid.
Qed.

Lemma add_PV x a :
  Fin x = true -> Fin a = true ->
  NN (x + a) = true /\ PV (x + a) = rnd_sat emin (PV x + PV a).
Proof.
  intros Hx Ha. unfold NN, PV. rewrite add_spec.
  apply SFadd_nonneg; trivial; apply Prim2SF_valid.
Qed.

(** Monotonicity of the three operations in one argument. *)
Lemma sub_le c x1 x2 :
  Fin c = true -> Fin x1 = true -> Fin x2 = true ->
  PV c <= PV x1 <= PV x2 ->
  Fin (x1 - c) = true /\ PV (x1 - c) <= PV (x2 - c).
Proof.
  intros Hc H1 H2 [Hl Hu].
  destruct (sub_PV x1 c H1 Hc Hl) as [F1 E1].
  destruct (sub_PV x2 c H2 Hc ltac:(lia)) as [F2 E2].
  split; trivial. rewrite E1, E2. apply rnd_mono; lia.
Qed.

Lemma mul_le k d1 d2 :
  Fin k = true -> Fin d1 = true -> Fin d2 = true ->
  PV d1 <= PV d2 -> Fin (k * d2) = true ->
  Fin (k * d1) = true /\ PV (k * d1) <= PV (k * d2).
Proof.
  intros Hk H1 H2 Hle HF. fconst.
  destruct (mul_PV k d1 Hk H1) as [N1 E1].
  destruct (mul_PV k d2 Hk H2) as [N2 E2].
  pose proof (Fin_bounds k Hk). pose proof (Fin_bounds d1 H1).
  pose proof (Fin_bounds d2 H2). pose proof (Fin_bounds _ HF).
  assert (Hm : rnd_sat (2 * emin) (PV k * PV d1) <= rnd_sat (2 * emin) (PV k * PV d2)).
  { apply rnd_sat_mono; [lia|]. split; [nia|]. apply Z.mul_le_mono_nonneg_l; lia. }
  pose proof (pow2_pos (- emin) ltac:(lia)).
  assert (PV (k * d1) <= PV (k * d2)) by nia.
  split; trivial. apply NN_Fin; trivial. lia.
Qed.

Lemma add_le a p1 p2 :
  Fin a = true -> Fin p1 = true -> Fin p2 = true ->
  PV p1 <= PV p2 -> Fin (p2 + a) = true ->
  Fin (p1 + a) = true /\ PV (p1 + a) <= PV (p2 + a).
Proof.
  intros Ha H1 H2 Hle HF. fconst.
  destruct (add_PV p1 a H1 Ha) as [N1 E1].
  destruct (add_PV p2 a H2 Ha) as [N2 E2].
  pose proof (Fin_bounds a Ha). pose proof (Fin_bounds p1 H1).
  pose proof (Fin_bounds p2 H2). pose proof (Fin_bounds _ HF).
  assert (Hm : rnd_sat emin (PV p1 + PV a) <= rnd_sat emin (PV p2 + PV a)).
  { apply rnd_sat_mono; lia. }
  split; [|lia]. apply NN_Fin; trivial. lia.
Qed.

(** * [Math.round] *)

(** [round_Z] is the integer [Math.round] returns, as a function of the
    value of its argument. *)
Lemma round_Z_mono V1 V2 : V1 <= V2 -> round_Z V1 <= round_Z V2.
Proof.
  intros H. unfold round_Z. apply Z.div_le_mono; [|lia].
  apply pow2_pos. fconst. lia.
Qed.

Lemma round_Z_int n : round_Z (n * 2 ^ (- emin)) = n.
Proof.
  unfold round_Z. fconst.
  pose proof (pow2_pos (- emin) ltac:(lia)) as HP.
  rewrite (pow2_add (- emin) 1) by lia. change (2 ^ 1) with 2.
  rewrite (Z.mul_comm (2 ^ (- emin)) 2).
  replace (2 * (n * 2 ^ (- emin)) + 2 ^ (- emin)) with ((2 * n + 1) * 2 ^ (- emin)) by ring.
  rewrite Z.div_mul_cancel_r by lia.
  replace (2 * n + 1) with (1 + n * 2) by ring.
  rewrite Z.div_add by lia. reflexivity.
Qed.

Lemma valid_FV_inj m1 e1 m2 e2 :
  valid_binary (S754_finite false m1 e1) = true ->
  valid_binary (S754_finite false m2 e2) = true ->
  Z.pos m1 * 2 ^ (e1 - emin) = Z.pos m2 * 2 ^ (e2 - emin) ->
  m1 = m2 /\ e1 = e2.
Proof.
  intros V1 V2 H. pose proof (lex_value m1 e1 m2 e2 V1 V2) as L.
  rewrite H, Z.compare_refl in L.
  destruct (Z.compare_spec e1 e2); try discriminate.
  split; trivial. apply Pos.compare_eq. exact L.
Qed.

(** The Number of an integer that needs no rounding has the integer as its
    value. *)
Lemma of_Z_rnd n :
  0 < n ->
  rnd emin (n * 2 ^ (- emin)) = n * 2 ^ (- emin) ->
  n * 2 ^ (- emin) < 2 ^ (emax - emin) ->
  exists m e, Prim2SF (JS.of_Z n) = S754_finite false m e /\
              valid_binary (S754_finite false m e) = true /\
              Z.pos m * 2 ^ (e - emin) = n * 2 ^ (- emin).
Proof.
  intros Hn HR HI. fconst. destruct n as [|p|p]; try lia.
  unfold JS.of_Z, binary_normalize.
  pose proof (binary_round_spec false p 0 ltac:(lia)) as [Hv Hpost].
  replace (0 - emin) with (- emin) in Hpost by lia.
  assert (HP : 0 < 2 ^ (- emin)) by (apply pow2_pos; lia).
  rewrite HR in Hpost.
  rewrite Prim2SF_SF2Prim by exact Hv.
  destruct (binary_round prec emax false p 0) as [s|s| |s m e]; try contradiction.
  - destruct Hpost as [_ HR']. lia.
  - destruct Hpost as [_ HR']. lia.
  - destruct Hpost as (-> & HR' & _). eauto.
Qed.

Lemma of_Z_small n :
  0 < n < 2 ^ prec ->
  Fin (JS.of_Z n) = true /\ PV (JS.of_Z n) = n * 2 ^ (- emin).
Proof.
  intros [Hn0 Hn]. fconst.
  assert (HP : 0 < 2 ^ (- emin)) by (apply pow2_pos; lia).
  assert (HR : rnd emin (n * 2 ^ (- emin)) = n * 2 ^ (- emin)).
  { apply rnd_exact; [lia|]. unfold rnd_shift.
    rewrite Zdigits2_shift by lia.
    assert (Hd : Zdigits2 n <= prec).
    { destruct (Z_lt_le_dec prec (Zdigits2 n)); [|lia].
      destruct (Zdigits2_bounds n ltac:(lia)) as [Hl _].
      pose proof (pow2_le prec (Zdigits2 n - 1)). lia. }
    assert (1 <= Zdigits2 n) by (destruct n; simpl in *; lia).
    set (sh := fexp prec emax (Zdigits2 n + - emin + emin) - emin).
    assert (Hsh : 0 <= sh <= - emin) by (unfold sh, fexp; lia).
    replace (- emin) with ((- emin - sh) + sh) by lia.
    rewrite pow2_add by lia. rewrite Z.mul_assoc. apply Z.mod_mul.
    pose proof (pow2_pos sh). lia. }
  assert (HI : n * 2 ^ (- emin) < 2 ^ (emax - emin)).
  { assert (2 ^ prec * 2 ^ (- emin) <= 2 ^ (emax - emin)).
    { rewrite <- pow2_add by lia. apply pow2_le. lia. }
    nia. }
  destruct (of_Z_rnd n Hn0 HR HI) as (m & e & Hm & _ & Hval).
  unfold Fin, PV. rewrite Hm. cbn [SFfin FV cond_Zopp]. auto.
Qed.

Lemma of_Z_repr m e :
  valid_binary (S754_finite false m e) = true -> 0 <= e ->
  Prim2SF (JS.of_Z (Z.pos m * 2 ^ e)) = S754_finite false m e.
Proof.
  intros Hv He. fconst.
  assert (HP : 0 < 2 ^ (- emin)) by (apply pow2_pos; lia).
  pose proof (pow2_pos e He) as HPe.
  assert (Hval : Z.pos m * 2 ^ e * 2 ^ (- emin) = Z.pos m * 2 ^ (e - emin)).
  { replace (e - emin) with (e + - emin) by lia. rewrite pow2_add by lia. ring. }
  pose proof (FV_finite_bounds _ _ _ Hv) as Hb.
  destruct (of_Z_rnd (Z.pos m * 2 ^ e)) as (m' & e' & Hm & Hv' & Hval').
  - lia.
  - rewrite Hval. apply (rnd_repr false); trivial.
  - lia.
  - rewrite Hval in Hval'.
    destruct (valid_FV_inj _ _ _ _ Hv' Hv Hval') as [-> ->]. exact Hm.
Qed.

(** [Math.round] on a finite non-negative Number returns the Number of
    [round_Z] of its value. *)
Lemma Math_round_spec y :
  Fin y = true ->
  Fin (JS.Math_round y) = true /\
  PV (JS.Math_round y) = round_Z (PV y) * 2 ^ (- emin) /\
  (round_Z (PV y) <> 0 -> JS.Math_round y = JS.of_Z (round_Z (PV y))).
Proof.
  intros HF. fconst.
  assert (HP : 0 < 2 ^ (- emin)) by (apply pow2_pos; lia).
  pose proof (Prim2SF_valid y) as Hv.
  unfold JS.Math_round. unfold Fin, PV in *.
  destruct (Prim2SF y) as [s|s| |[] m e] eqn:E; try discriminate.
  - (* a zero *)
    assert (Hz : round_Z 0 = 0) by (apply (round_Z_int 0)).
    rewrite E. cbn [SFfin FV]. rewrite Hz. repeat split; trivial. congruence.
  - destruct (valid_finite _ _ _ Hv) as (He & Hd & _ & _).
    cbn [FV cond_Zopp].
    destruct (Z.leb_spec 0 e) as [He0|He0].
    + (* already an integer *)
      assert (Hval : Z.pos m * 2 ^ (e - emin) = Z.pos m * 2 ^ e * 2 ^ (- emin)).
      { replace (e - emin) with (e + - emin) by lia. rewrite pow2_add by lia. ring. }
      rewrite Hval, round_Z_int, E. cbn [SFfin FV cond_Zopp].
      repeat split; trivial. intros _.
      apply Prim2SF_inj. rewrite of_Z_repr by trivial. exact E.
    + (* a fractional part: floor (y + 1/2) *)
      assert (Hn : (2 * Z.pos m + 2 ^ (- e)) / 2 ^ (- e + 1)
                   = round_Z (Z.pos m * 2 ^ (e - emin))).
      { unfold round_Z.
        assert (HPs : 0 < 2 ^ (e - emin)) by (apply pow2_pos; lia).
        replace (2 ^ (- emin)) with (2 ^ (- e) * 2 ^ (e - emin))
          by (rewrite <- pow2_add by lia; f_equal; lia).
        replace (2 ^ (- emin + 1)) with (2 ^ (- e + 1) * 2 ^ (e - emin))
          by (rewrite <- pow2_add by lia; f_equal; lia).
        replace (2 * (Z.pos m * 2 ^ (e - emin)) + 2 ^ (- e) * 2 ^ (e - emin))
          with ((2 * Z.pos m + 2 ^ (- e)) * 2 ^ (e - emin)) by ring.
        pose proof (pow2_pos (- e + 1) ltac:(lia)).
        rewrite Z.div_mul_cancel_r by lia. reflexivity. }
      cbn [cond_Zopp]. rewrite Hn.
      set (n := round_Z (Z.pos m * 2 ^ (e - emin))) in *.
      assert (Hnb : 0 <= n < 2 ^ prec).
      { rewrite <- Hn.
        pose proof (pow2_pos (- e) ltac:(lia)) as HPe.
        rewrite (pow2_add (- e) 1) by lia. change (2 ^ 1) with 2.
        destruct (Zdigits2_bounds (Z.pos m) ltac:(lia)) as [_ Hu].
        assert (1 <= Zdigits2 (Z.pos m)) by (simpl; lia).
        pose proof (pow2_le (Zdigits2 (Z.pos m)) prec ltac:(lia)).
        split.
        - apply Z.div_pos; lia.
        - apply Z.div_lt_upper_bound; [lia|].
          change (2 ^ prec) with (2 * 2 ^ (prec - 1)) in *.
          assert (2 <= 2 ^ (- e)).
          { change 2 with (2 ^ 1) at 1. apply pow2_le. lia. }
          nia. }
      destruct (Z.eqb_spec n 0) as [Hn0|Hn0].
      * rewrite Hn0. repeat split; trivial; congruence.
      * destruct (of_Z_small n ltac:(lia)) as [F1 F2].
        unfold Fin, PV in F1, F2. repeat split; trivial.
Qed.

(** * The rows of the table *)

Lemma interpolate_num x bp :
  interpolate (JS.Number x) bp = JS.Math_round (raw_index x bp).
Proof. reflexivity. Qed.

(** Case analysis on the seven rows. *)
Lemma rows_cases (P : nat -> Breakpoint -> Prop) :
  P 0%nat (mkBreakpoint 50 0.0 12.0 "Good") ->
  P 1%nat (mkBreakpoint 100 12.1 35.4 "Moderate") ->
  P 2%nat (mkBreakpoint 150 35.5 55.4 "Unhealthy for Sensitive") ->
  P 3%nat (mkBreakpoint 200 55.5 150.4 "Unhealthy") ->
  P 4%nat (mkBreakpoint 300 150.5 250.4 "Very Unhealthy") ->
  P 5%nat (mkBreakpoint 400 250.5 350.4 "Hazardous") ->
  P 6%nat (mkBreakpoint 500 350.5 500.4 "Extremely Hazardous") ->
  forall j bp, nth_error breakpoints j = Some bp -> P j bp.
Proof.
  intros P0 P1 P2 P3 P4 P5 P6 j bp H.
  do 7 (destruct j as [|j]; [injection H as <-; assumption|]).
  destruct j; discriminate H.
Qed.

(** On every row the bounds, the lower index and the slope are finite and not
    negative, and the index at the upper bound is at most 500. *)
Lemma rows_facts j bp :
  nth_error breakpoints j = Some bp -> row_facts bp.
Proof.
  revert j bp. apply rows_cases; unfold row_facts;
  repeat split; try (vm_compute; reflexivity); apply Z.leb_le; vm_compute; reflexivity.
Qed.

(** The argument of [Math.round] is monotone in the concentration on a row,
    and stays below its value at the upper bound. *)
Lemma raw_index_mono bp x1 x2 :
  row_facts bp ->
  Fin x1 = true -> Fin x2 = true ->
  PV (Cl bp) <= PV x1 -> PV x1 <= PV x2 -> PV x2 <= PV (Ch bp) ->
  Fin (raw_index x1 bp) = true /\ Fin (raw_index x2 bp) = true /\
  PV (raw_index x1 bp) <= PV (raw_index x2 bp) /\
  PV (raw_index x2 bp) <= PV (raw_index (Ch bp) bp).
Proof.
  intros (Fc & Fh & Fa & Fk & Fp & Fr & _) F1 F2 H1 H12 H2.
  unfold raw_index in *.
  destruct (sub_le (Cl bp) x2 (Ch bp) Fc F2 Fh ltac:(lia)) as [Fd2 Ld2].
  destruct (sub_le (Cl bp) x1 x2 Fc F1 F2 ltac:(lia)) as [Fd1 Ld1].
  destruct (sub_le (Cl bp) (Ch bp) (Ch bp) Fc Fh Fh ltac:(lia)) as [Fdh _].
  destruct (mul_le (slope bp) _ _ Fk Fd2 Fdh Ld2 Fp) as [Fp2 Lp2].
  destruct (mul_le (slope bp) _ _ Fk Fd1 Fd2 Ld1 Fp2) as [Fp1 Lp1].
  destruct (add_le (AQIl_of bp) _ _ Fa Fp2 Fp Lp2 Fr) as [Fy2 Ly2].
  destruct (add_le (AQIl_of bp) _ _ Fa Fp1 Fp2 Lp1 Fy2) as [Fy1 Ly1].
  auto.
Qed.

(** * The loop and the component *)

(** ** The guard and the loop *)
Lemma is_nan_isnum x : is_nan x = negb (isnum x).
Proof.
  unfold is_nan, isnum. rewrite eqb_spec. unfold SFeqb.
  pose proof (Prim2SF_valid x) as Hv.
  destruct (SFnum (Prim2SF x)) eqn:E.
  - rewrite SFcompare_FV, Z.compare_refl by trivial. reflexivity.
  - destruct (Prim2SF x); try discriminate. reflexivity.
Qed.

Lemma in_band_num x bp :
  in_band (JS.Number x) bp = true ->
  isnum x = true /\ PV (Cl bp) <= PV x <= PV (Ch bp).
Proof.
  unfold in_band, JS.ge, JS.le, JS.ToNumber. intros H.
  apply andb_prop in H. destruct H as [H1 H2].
  apply leb_true in H1. apply leb_true in H2. intuition.
Qed.

Lemma in_band_false_low x bp :
  isnum x = true -> Fin (Cl bp) = true -> PV x < PV (Cl bp) ->
  in_band (JS.Number x) bp = false.
Proof.
  intros Hx Hc Hlt. unfold in_band, JS.ge, JS.le, JS.ToNumber.
  rewrite (leb_PV (Cl bp) x) by (trivial; apply Fin_isnum; trivial).
  replace (PV (Cl bp) <=? PV x) with false; trivial.
  symmetry. apply Z.leb_gt. lia.
Qed.

Lemma in_band_false_high x bp :
  isnum x = true -> Fin (Ch bp) = true -> PV (Ch bp) < PV x ->
  in_band (JS.Number x) bp = false.
Proof.
  intros Hx Hc Hlt. unfold in_band, JS.ge, JS.le, JS.ToNumber.
  rewrite (leb_PV x (Ch bp)) by (trivial; apply Fin_isnum; trivial).
  replace (PV x <=? PV (Ch bp)) with false; [apply andb_false_r|].
  symmetry. apply Z.leb_gt. lia.
Qed.

Lemma scan_none v rows : forall st,
  (forall bp, In bp rows -> in_band v bp = false) -> scan v rows st = st.
Proof.
  induction rows as [|bp rest IH]; intros st H; cbn [scan]; trivial.
  rewrite (H bp) by (left; trivial). apply IH. intros; apply H; right; trivial.
Qed.

(** The loop stops at the first matching row. *)
Lemma scan_first v rows : forall j bp st,
  nth_error rows j = Some bp -> in_band v bp = true ->
  (forall j' bp', (j' < j)%nat -> nth_error rows j' = Some bp' -> in_band v bp' = false) ->
  scan v rows st = (interpolate v bp, category bp).
Proof.
  induction rows as [|r rest IH]; intros j bp st Hj Hin Hfirst.
  - destruct j; discriminate.
  - destruct j as [|j]; simpl in Hj.
    + injection Hj as ->. cbn [scan]. rewrite Hin. reflexivity.
    + cbn [scan]. rewrite (Hfirst 0%nat r) by (trivial; lia).
      apply (IH j bp st Hj Hin).
      intros j' bp' Hlt Hn. apply (Hfirst (S j') bp'); trivial. lia.
Qed.

Lemma scan_cases v rows : forall st,
  (scan v rows st = st /\ forall bp, In bp rows -> in_band v bp = false) \/
  (exists j bp, nth_error rows j = Some bp /\ in_band v bp = true /\
     scan v rows st = (interpolate v bp, category bp)).
Proof.
  induction rows as [|r rest IH]; intros st.
  - left. split; trivial. intros bp [].
  - cbn [scan]. destruct (in_band v r) eqn:E.
    + right. exists 0%nat, r. repeat split; trivial.
    + destruct (IH st) as [[Hs Hn]|(j & bp & Hj & Hin & Hs)].
      * left. split; trivial. intros bp [<-|Hb]; auto.
      * right. exists (S j), bp. repeat split; trivial.
Qed.

(** The table is sorted and its bands are disjoint. *)
Lemma rows_order j bp :
  nth_error breakpoints j = Some bp ->
  forall j' bp', nth_error breakpoints j' = Some bp' ->
  ((j' <= j)%nat -> PV (Ch bp') <= PV (Ch bp) /\ PV (Cl bp') <= PV (Cl bp)) /\
  ((j' < j)%nat -> PV (Ch bp') < PV (Cl bp)).
Proof.
  revert j bp.
  match goal with
  | |- forall j bp, nth_error breakpoints j = Some bp -> @?Q j bp =>
      apply (rows_cases Q)
  end;
  match goal with
  | |- forall j' bp', nth_error breakpoints j' = Some bp' -> @?Q j' bp' =>
      apply (rows_cases Q)
  end;
  (split; intros Hlt; try lia; try split;
   first [apply Z.leb_le | apply Z.ltb_lt]; vm_compute; reflexivity).
Qed.

Lemma rows_In bp :
  In bp breakpoints -> exists j, nth_error breakpoints j = Some bp.
Proof. apply In_nth_error. Qed.

Lemma AQI_number x :
  isnum x = true ->
  AQI (JS.Number x) =
  index_result (fst (scan (JS.Number x) breakpoints (0%float, ""%string)))
               (snd (scan (JS.Number x) breakpoints (0%float, ""%string))).
Proof.
  intros Hx. unfold AQI, JS.isNaN, JS.ToNumber, is_undefined, is_null.
  rewrite is_nan_isnum, Hx. cbn [negb orb].
  destruct (scan _ _ _) as [aqi cat]. reflexivity.
Qed.

(** On a Number inside a row the loop ends with the interpolation on that
    row and its category. *)
Lemma AQI_in_band j bp x :
  nth_error breakpoints j = Some bp ->
  in_band (JS.Number x) bp = true ->
  AQI (JS.Number x) =
  index_result (interpolate (JS.Number x) bp) (category bp).
Proof.
  intros Hj Hin. destruct (in_band_num x bp Hin) as [Hx [Hl Hh]].
  rewrite AQI_number by trivial.
  rewrite (scan_first (JS.Number x) breakpoints j bp _ Hj Hin).
  - reflexivity.
  - intros j' bp' Hlt Hj'.
    destruct (rows_order j bp Hj j' bp' Hj') as [_ Hd].
    destruct (rows_facts j' bp' Hj') as (_ & Fh & _).
    apply in_band_false_high; trivial. specialize (Hd Hlt). lia.
Qed.

Lemma AQI_no_band x :
  isnum x = true ->
  (forall bp, In bp breakpoints -> in_band (JS.Number x) bp = false) ->
  AQI (JS.Number x) = Dash.
Proof.
  intros Hx Hn. rewrite AQI_number by trivial.
  rewrite scan_none by trivial. reflexivity.
Qed.

(** * Properties of the component *)

Lemma PV_zero : PV 0 = 0.
Proof. reflexivity. Qed.

Lemma first_row_at : nth_error breakpoints 0 = Some first_row.
Proof. reflexivity. Qed.

Lemma row_last : nth_error breakpoints 6 = Some (mkBreakpoint 500 350.5 500.4 "Extremely Hazardous").
Proof. reflexivity. Qed.

Lemma rows_length j bp : nth_error breakpoints j = Some bp -> (j <= 6)%nat.
Proof.
  intros H. assert (nth_error breakpoints j <> None) by congruence.
  apply nth_error_Some in H0. simpl in H0. lia.
Qed.

Lemma rows_category j bp :
  nth_error breakpoints j = Some bp -> In (category bp) categories.
Proof.
  revert j bp. apply rows_cases; simpl; tauto.
Qed.

(** The position [indexOf] finds, and the lower index of a row: [0] on the
    first row and the upper index of the row before on the others. *)
Lemma indexOf_row j bp :
  nth_error breakpoints j = Some bp -> indexOf breakpoints bp = Z.of_nat j.
Proof. revert j bp. apply rows_cases; reflexivity. Qed.

Lemma AQIl_first bp :
  nth_error breakpoints 0 = Some bp -> AQIl_of bp = 0%float.
Proof. intros H. injection H as <-. reflexivity. Qed.

Lemma AQIl_prev j prev bp :
  nth_error breakpoints j = Some prev ->
  nth_error breakpoints (S j) = Some bp ->
  AQIl_of bp = AQIh prev.
Proof.
  revert j prev.
  match goal with
  | |- forall j prev, nth_error breakpoints j = Some prev -> @?Q j prev =>
      apply (rows_cases Q)
  end; intros H; try discriminate H; injection H as <-; reflexivity.
Qed.

(** ** Numbers inside a row *)

Lemma in_band_Fin j bp x :
  nth_error breakpoints j = Some bp -> in_band (JS.Number x) bp = true ->
  Fin x = true /\ PV (Cl bp) <= PV x <= PV (Ch bp).
Proof.
  intros Hj Hin. destruct (in_band_num x bp Hin) as [Hx Hb].
  destruct (rows_facts j bp Hj) as (Fc & Fh & _).
  pose proof (Fin_bounds _ Fc). pose proof (Fin_bounds _ Fh).
  split; trivial. apply isnum_nonneg_Fin; trivial. lia.
Qed.

Lemma in_band_intro bp x :
  isnum x = true -> Fin (Cl bp) = true -> Fin (Ch bp) = true ->
  PV (Cl bp) <= PV x <= PV (Ch bp) -> in_band (JS.Number x) bp = true.
Proof.
  intros Hx Fc Fh [Hl Hh]. unfold in_band, JS.ge, JS.le, JS.ToNumber.
  rewrite !leb_PV by (trivial; apply Fin_isnum; trivial).
  apply andb_true_intro. split; apply Z.leb_le; trivial.
Qed.

(** The index computed on a matching row is an integer [n] between 0 and
    500, and it is the sentinel of line 33 exactly when [n] is 0. *)
Lemma band_index j bp x :
  nth_error breakpoints j = Some bp -> in_band (JS.Number x) bp = true ->
  let aqi := interpolate (JS.Number x) bp in
  let n := round_Z (PV (raw_index x bp)) in
  0 <= n <= 500 /\ Fin aqi = true /\ PV aqi = n * 2 ^ (- emin) /\
  (n <> 0 -> aqi = JS.of_Z n) /\ JS.strict_eq aqi 0 = (n =? 0).
Proof.
  intros Hj Hin aqi n. subst aqi n. rewrite interpolate_num.
  destruct (in_band_Fin j bp x Hj Hin) as [Fx [Hl Hh]].
  pose proof (rows_facts j bp Hj) as RF.
  destruct (raw_index_mono bp x x RF Fx Fx Hl ltac:(lia) Hh) as (Fr & _ & _ & Hr).
  destruct RF as (_ & _ & _ & _ & _ & _ & Hmax).
  destruct (Math_round_spec _ Fr) as (Fa & Pa & Ea).
  pose proof (Fin_bounds _ Fr) as Br.
  pose proof (round_Z_mono _ _ Hr).
  pose proof (round_Z_mono 0 _ (proj1 Br)) as H0.
  replace (round_Z 0) with 0 in H0 by (symmetry; apply (round_Z_int 0)).
  repeat split; trivial; try lia.
  unfold JS.strict_eq. rewrite eqb_PV by (apply Fin_isnum; trivial; reflexivity).
  rewrite Pa, PV_zero. fconst. pose proof (pow2_pos (- emin) ltac:(lia)).
  destruct (Z.eqb_spec (round_Z (PV (raw_index x bp)) * 2 ^ (- emin)) 0);
  destruct (Z.eqb_spec (round_Z (PV (raw_index x bp))) 0); trivial; nia.
Qed.

(** The index is monotone in the concentration inside a row. *)
Lemma band_index_mono j bp x1 x2 :
  nth_error breakpoints j = Some bp ->
  in_band (JS.Number x1) bp = true -> in_band (JS.Number x2) bp = true ->
  PV x1 <= PV x2 ->
  round_Z (PV (raw_index x1 bp)) <= round_Z (PV (raw_index x2 bp)).
Proof.
  intros Hj H1 H2 Hle.
  destruct (in_band_Fin j bp x1 Hj H1) as [F1 [L1 U1]].
  destruct (in_band_Fin j bp x2 Hj H2) as [F2 [L2 U2]].
  pose proof (rows_facts j bp Hj) as RF.
  destruct (raw_index_mono bp x1 x2 RF F1 F2 L1 Hle U2) as (_ & _ & Hm & _).
  apply round_Z_mono; trivial.
Qed.

(** Outside the sentinel, the component renders the interpolated index and
    the category of the row the number lies in. *)
Lemma AQI_in_band_nonzero j bp x :
  nth_error breakpoints j = Some bp ->
  in_band (num x) bp = true ->
  JS.strict_eq (interpolate (num x) bp) 0 = false ->
  AQI (num x) = Span (color_of (interpolate (num x) bp)) (interpolate (num x) bp) (category bp).
Proof.
  intros Hj Hin Hz. unfold num in *.
  rewrite (AQI_in_band j bp x Hj Hin). unfold index_result. rewrite Hz. reflexivity.
Qed.

Lemma AQI_NaN x : isnum x = false -> AQI (JS.Number x) = Dash.
Proof.
  intros Hx. unfold AQI, JS.isNaN, JS.ToNumber.
  rewrite is_nan_isnum, Hx. reflexivity.
Qed.

(** What the component returns on a Number: the dash, or the index of the
    one row the number lies in. *)
Lemma AQI_number_cases x :
  AQI (JS.Number x) = Dash \/
  exists j bp, nth_error breakpoints j = Some bp /\
    in_band (JS.Number x) bp = true /\
    JS.strict_eq (interpolate (JS.Number x) bp) 0 = false /\
    AQI (JS.Number x) =
      Span (color_of (interpolate (JS.Number x) bp))
           (interpolate (JS.Number x) bp) (category bp).
Proof.
  destruct (isnum x) eqn:Hx; [|left; apply AQI_NaN; trivial].
  rewrite AQI_number by trivial.
  destruct (scan_cases (JS.Number x) breakpoints (0%float, ""%string))
    as [[Hs _]|(j & bp & Hj & Hin & Hs)]; rewrite Hs.
  - left. reflexivity.
  - cbn [fst snd]. unfold index_result.
    destruct (JS.strict_eq _ 0) eqn:E; [left; reflexivity|].
    right. exists j, bp. auto.
Qed.

(** The finite non-negative numbers strictly below a number with mantissa [m]
    (not a power of two) and exponent [e] are at most its predecessor. *)
Lemma below_float x m e :
  valid_binary (S754_finite false m e) = true -> 2 ^ (prec - 1) < Z.pos m ->
  Fin x = true -> PV x < Z.pos m * 2 ^ (e - emin) ->
  PV x <= (Z.pos m - 1) * 2 ^ (e - emin).
Proof.
  intros Hv Hm Fx Hlt. fconst.
  destruct (valid_finite _ _ _ Hv) as (He & Hd & _ & _).
  assert (HP : 0 < 2 ^ (e - emin)) by (apply pow2_pos; lia).
  destruct (Zdigits2_bounds (Z.pos m) ltac:(lia)) as [_ Um].
  assert (1 <= Zdigits2 (Z.pos m)) by (simpl; lia).
  pose proof (pow2_le (Zdigits2 (Z.pos m)) prec ltac:(lia)) as Bm.
  change (2 ^ prec) with (2 * 2 ^ (prec - 1)) in Bm.
  set (h := 2 ^ (prec - 1)) in *.
  assert (Hh : 0 < h) by (apply pow2_pos; lia).
  pose proof (Prim2SF_valid x) as Vx. unfold Fin, PV in *.
  destruct (Prim2SF x) as [s|s| |[] mx ex]; try discriminate; cbn [FV cond_Zopp] in *.
  - nia.
  - destruct (valid_finite _ _ _ Vx) as (Hex & Hdx & Hnx & _).
    assert (HPx : 0 < 2 ^ (ex - emin)) by (apply pow2_pos; lia).
    destruct (Zdigits2_bounds (Z.pos mx) ltac:(lia)) as [Lx Ux].
    assert (1 <= Zdigits2 (Z.pos mx)) by (simpl; lia).
    pose proof (pow2_le (Zdigits2 (Z.pos mx)) prec ltac:(lia)) as Bx.
    change (2 ^ prec) with (2 * 2 ^ (prec - 1)) in Bx. fold h in Bx.
    destruct (Z.lt_trichotomy ex e) as [Hc|[Hc|Hc]].
    + (* a smaller exponent *)
      replace (e - emin) with ((e - ex - 1) + (1 + (ex - emin))) by lia.
      rewrite (pow2_add (e - ex - 1)), (pow2_add 1) by lia. change (2 ^ 1) with 2.
      assert (0 < 2 ^ (e - ex - 1)) by (apply pow2_pos; lia).
      set (u := 2 ^ (ex - emin)) in *. set (w := 2 ^ (e - ex - 1)) in *.
      assert (Z.pos mx * u <= 2 * h * u) by nia.
      assert (h * (1 * (2 * u)) <= (Z.pos m - 1) * (w * (2 * u))).
      { apply Z.mul_le_mono_nonneg; try lia. apply Z.mul_le_mono_nonneg_r; lia. }
      lia.
    + subst ex.
      assert (Z.pos mx < Z.pos m) by (apply (Z.mul_lt_mono_pos_r (2 ^ (e - emin))); lia).
      apply Z.mul_le_mono_nonneg_r; lia.
    + (* a larger exponent: not below *)
      exfalso. rewrite (Hnx ltac:(lia)) in Lx. fold h in Lx.
      replace (ex - emin) with ((ex - e - 1) + (1 + (e - emin))) in Hlt by lia.
      rewrite (pow2_add (ex - e - 1)), (pow2_add 1) in Hlt by lia.
      change (2 ^ 1) with 2 in Hlt.
      assert (0 < 2 ^ (ex - e - 1)) by (apply pow2_pos; lia).
      set (u := 2 ^ (e - emin)) in *. set (w := 2 ^ (ex - e - 1)) in *.
      assert (Z.pos m * u < 2 * h * u) by nia.
      assert (h * (1 * (2 * u)) <= Z.pos mx * (w * (2 * u))).
      { apply Z.mul_le_mono_nonneg; try lia. apply Z.mul_le_mono_nonneg_r; lia. }
      lia.
Qed.

Lemma below_012 x :
  Fin x = true -> PV x < PV 0.12 -> PV x <= PV (next_down 0.12).
Proof.
  intros Fx Hlt.
  assert (E : Prim2SF 0.12 = S754_finite false 8646911284551352 (-56)) by reflexivity.
  assert (E' : Prim2SF (next_down 0.12) = S754_finite false 8646911284551351 (-56))
    by reflexivity.
  pose proof (Prim2SF_valid 0.12) as Hv. rewrite E in Hv.
  unfold PV in Hlt |- *. rewrite E in Hlt. rewrite E'. cbn [FV cond_Zopp] in *.
  apply (below_float x _ _ Hv); trivial.
  apply Z.ltb_lt. vm_compute. reflexivity.
Qed.

(** ** The claims *)

(** C1 (the code departs from the claim).  The claim: every Number inside a
    band gets the rounded interpolation as its value and the band's category.
    The concentration 0.1 lies in the first band, its interpolated index is
    [round ((50 / 12) * 0.1) = 0] and the band's category is Good, but the
    component renders the dash: the index 0 is taken for the initial value of
    [aqi] by the test of line 33.  Where the index is not 0 the claim holds
    ([AQI_in_band_nonzero], with [AQIl_first] and [AQIl_prev] for the lower
    index). *)
Theorem AQI_first_band_index_zero :
  nth_error breakpoints 0 = Some first_row /\
  in_band (num 0.1) first_row = true /\
  interpolate (num 0.1) first_row = 0%float /\
  category first_row = "Good"%string /\
  AQI (num 0.1) = Dash.
Proof. repeat split. Qed.

(** C2 (the code departs from the claim).  The claim: the concentration 0.0
    gives the value 0 and the category Good.  The first band matches 0.0 and
    the index computed is 0, but the component renders the dash. *)
Theorem AQI_zero_concentration :
  in_band (num 0) first_row = true /\
  interpolate (num 0) first_row = 0%float /\
  AQI (num 0) = Dash.
Proof. repeat split. Qed.

(** C3.  On every absent input, that is [undefined], [null], the empty string
    or NaN, the component renders the dash.  ([undefined], [null] and NaN
    are stopped by the guard of line 10; the empty string passes it, is
    coerced to 0 and is stopped by the test of line 33.) *)
Theorem AQI_absent_input :
  AQI JS.Undefined = Dash /\ AQI JS.Null = Dash /\ AQI JS.EmptyString = Dash /\
  forall x, is_nan x = true -> AQI (JS.Number x) = Dash.
Proof.
  repeat split; try reflexivity.
  intros x Hx. unfold AQI, JS.isNaN, JS.ToNumber. rewrite Hx. reflexivity.
Qed.

Lemma AQI_absent_input_witness : AQI (JS.Number nan) = Dash.
Proof. apply (proj2 (proj2 (proj2 AQI_absent_input))). reflexivity. Defined.

(** C4 (the code departs from the claim).  The claim: 12.0 gives the value
    50 and the category Good, 12.1 gives the value 51 and the category
    Moderate, and 500.4 gives the value 500 and the category Extremely
    Hazardous.  The component, which computes the US AQI from the EPA
    breakpoints (lines 8 and 23), does so at 12.0 and at 500.4, but at 12.1
    it renders the value 50, not 51, with the category Moderate and in the
    colour of Good: line 24 takes for the lower index of a band the upper
    index of the band before, where the EPA band starts one above it. *)
Theorem AQI_boundary_points :
  AQI (num 12.0) = Span "#227d34" 50 "Good" /\
  AQI (num 12.1) = Span "#227d34" 50 "Moderate" /\
  AQI (num 500.4) = Span "#5a2210" 500 "Extremely Hazardous".
Proof. repeat split. Qed.

(** C5.  Every Number below 0.0 or above 500.4 (the infinities included)
    matches no band and the component renders the dash: there is no clamping
    and no extrapolation. *)
Theorem AQI_out_of_range x :
  (x <? 0)%float = true \/ (500.4 <? x)%float = true -> AQI (num x) = Dash.
Proof.
  intros H. unfold num.
  assert (Hx : isnum x = true).
  { destruct H as [H|H]; apply ltb_true in H; tauto. }
  apply AQI_no_band; trivial. intros bp Hin.
  destruct (rows_In bp Hin) as [j Hj].
  destruct (rows_facts j bp Hj) as (Fc & Fh & _).
  destruct H as [H|H]; apply ltb_true in H; destruct H as (_ & _ & Hlt).
  - apply in_band_false_low; trivial.
    pose proof (Fin_bounds _ Fc). rewrite PV_zero in Hlt. lia.
  - apply in_band_false_high; trivial.
    destruct (rows_order 6%nat _ row_last j bp Hj) as [Hle _].
    specialize (Hle (rows_length j bp Hj)). cbn [Ch] in Hle. lia.
Qed.

Lemma AQI_out_of_range_witness : AQI (num (-1)) = Dash /\ AQI (num 500.5) = Dash.
Proof.
  split; apply AQI_out_of_range; [left|right]; reflexivity.
Defined.

(** On a value that is neither [undefined] nor [null] and whose coercion is
    the Number [n], the component does what it does on [n]. *)
Lemma Any_AQI_coerced StringToNumber v n :
  Any.ToNumber StringToNumber v = Any.Returns n ->
  v <> Any.Prim Any.Undefined -> v <> Any.Prim Any.Null ->
  Any.AQI StringToNumber v = Any.Returns (AQI (JS.Number n)).
Proof.
  intros Hn Hu Hl. unfold Any.AQI, AQI, JS.isNaN, JS.ToNumber.
  destruct v as [[| | | | | |]|c]; try contradiction; rewrite Hn;
  cbn [is_undefined is_null orb];
  destruct (is_nan n); try reflexivity;
  destruct (scan _ _ _) as [aqi cat]; reflexivity.
Qed.

(** The two embeddings agree on [undefined], [null], the empty string and the
    Numbers. *)
Lemma Any_AQI_of_value StringToNumber v :
  StringToNumber ""%string = 0%float ->
  Any.AQI StringToNumber (Any.of_value v) = Any.Returns (AQI v).
Proof.
  intros H0. destruct v as [| | |x]; try reflexivity.
  - rewrite (Any_AQI_coerced _ (Any.Prim (Any.String "")) 0%float).
    + reflexivity.
    + cbn. rewrite H0. reflexivity.
    + discriminate.
    + discriminate.
  - apply Any_AQI_coerced; [reflexivity|discriminate|discriminate].
Qed.



(** C7.  For concentrations [c1 < c2] strictly inside one band, the index
    computed for [c1] is at most the index computed for [c2]; and whenever
    the component renders a value for [c1] it renders one for [c2], which is
    at least as large. *)
Theorem AQI_monotone_in_band j bp c1 c2 :
  nth_error breakpoints j = Some bp ->
  (Cl bp <? c1)%float = true -> (c1 <? c2)%float = true -> (c2 <? Ch bp)%float = true ->
  JS.le (interpolate (num c1) bp) (interpolate (num c2) bp) = true /\
  forall a1, value_of (AQI (num c1)) = Some a1 ->
  exists a2, value_of (AQI (num c2)) = Some a2 /\ JS.le a1 a2 = true.
Proof.
  intros Hj H1 H12 H2. unfold num in *.
  apply ltb_true in H1. destruct H1 as (_ & N1 & L1).
  apply ltb_true in H12. destruct H12 as (_ & N2 & L12).
  apply ltb_true in H2. destruct H2 as (_ & _ & L2).
  destruct (rows_facts j bp Hj) as (Fc & Fh & _).
  assert (B1 : in_band (JS.Number c1) bp = true) by (apply in_band_intro; trivial; lia).
  assert (B2 : in_band (JS.Number c2) bp = true) by (apply in_band_intro; trivial; lia).
  pose proof (band_index_mono j bp c1 c2 Hj B1 B2 ltac:(lia)) as Hm.
  destruct (band_index j bp c1 Hj B1) as (R1 & F1 & P1 & _ & Z1).
  destruct (band_index j bp c2 Hj B2) as (R2 & F2 & P2 & _ & Z2).
  assert (Hle : JS.le (interpolate (JS.Number c1) bp) (interpolate (JS.Number c2) bp) = true).
  { unfold JS.le. rewrite leb_PV by (apply Fin_isnum; trivial).
    rewrite P1, P2. apply Z.leb_le.
    fconst. pose proof (pow2_pos (- emin) ltac:(lia)). nia. }
  split; trivial. intros a1 Ha1.
  rewrite (AQI_in_band j bp c1 Hj B1) in Ha1.
  rewrite (AQI_in_band j bp c2 Hj B2).
  unfold index_result in *. rewrite Z1 in Ha1. rewrite Z2.
  destruct (Z.eqb_spec (round_Z (PV (raw_index c1 bp))) 0) as [E1|E1];
    [discriminate Ha1|].
  destruct (Z.eqb_spec (round_Z (PV (raw_index c2 bp))) 0) as [E2|E2];
    [lia|].
  cbn [value_of] in *. injection Ha1 as <-.
  eexists; split; [reflexivity|trivial].
Qed.

Lemma AQI_monotone_in_band_witness :
  JS.le (interpolate (num 20) (mkBreakpoint 100 12.1 35.4 "Moderate"))
        (interpolate (num 30) (mkBreakpoint 100 12.1 35.4 "Moderate")) = true /\
  forall a1, value_of (AQI (num 20)) = Some a1 ->
  exists a2, value_of (AQI (num 30)) = Some a2 /\ JS.le a1 a2 = true.
Proof.
  apply (AQI_monotone_in_band 1 (mkBreakpoint 100 12.1 35.4 "Moderate") 20 30);
  reflexivity.
Defined.

(** C8.  A Number strictly between the upper bound of a band and the lower
    bound of the next one (12.0 < pm2_5 < 12.1, for instance) matches no
    band, and the component renders the dash. *)
Theorem AQI_gap j lo hi x :
  nth_error breakpoints j = Some lo ->
  nth_error breakpoints (S j) = Some hi ->
  (Ch lo <? x)%float = true -> (x <? Cl hi)%float = true ->
  AQI (num x) = Dash.
Proof.
  intros Hlo Hhi H1 H2. unfold num.
  apply ltb_true in H1. destruct H1 as (_ & Hx & L1).
  apply ltb_true in H2. destruct H2 as (_ & _ & L2).
  apply AQI_no_band; trivial. intros bp Hin.
  destruct (rows_In bp Hin) as [t Ht].
  destruct (rows_facts t bp Ht) as (Fc & Fh & _).
  destruct (Nat.le_gt_cases t j) as [Hle|Hgt].
  - apply in_band_false_high; trivial.
    destruct (rows_order j lo Hlo t bp Ht) as [Ho _]. specialize (Ho Hle). lia.
  - apply in_band_false_low; trivial.
    destruct (rows_order t bp Ht (S j) hi Hhi) as [Ho _].
    specialize (Ho ltac:(lia)). lia.
Qed.

Lemma AQI_gap_witness : AQI (num 12.05) = Dash.
Proof.
  apply (AQI_gap 0 (mkBreakpoint 50 0.0 12.0 "Good")
           (mkBreakpoint 100 12.1 35.4 "Moderate")); reflexivity.
Defined.

(** C9.  A Number in the first band whose interpolated index is 0 gets the
    dash although the band matches, because the index 0 is the value [aqi]
    starts with; and the Numbers with [0 <= pm2_5 < 0.12] are in the first
    band and have the index 0. *)
Theorem AQI_zero_index_absent :
  (forall x, in_band (num x) first_row = true ->
     JS.strict_eq (interpolate (num x) first_row) 0 = true ->
     AQI (num x) = Dash) /\
  (forall x, (0 <=? x)%float = true -> (x <? 0.12)%float = true ->
     in_band (num x) first_row = true /\
     JS.strict_eq (interpolate (num x) first_row) 0 = true).
Proof.
  unfold num. split.
  - intros x Hin Hz.
    rewrite (AQI_in_band 0 first_row x first_row_at Hin).
    unfold index_result. rewrite Hz. reflexivity.
  - intros x H0 H1.
    apply leb_true in H0. destruct H0 as (_ & Hx & L0).
    apply ltb_true in H1. destruct H1 as (_ & _ & L1).
    pose proof (rows_facts 0 first_row first_row_at) as RF.
    assert (Fp : Fin (next_down 0.12) = true) by reflexivity.
    assert (Lp : PV (next_down 0.12) <= PV (Ch first_row))
      by (apply Z.leb_le; vm_compute; reflexivity).
    assert (L12 : PV 0.12 < 2 ^ (emax - emin))
      by (apply Z.ltb_lt; vm_compute; reflexivity).
    assert (Fx : Fin x = true).
    { apply isnum_nonneg_Fin; trivial. rewrite PV_zero in L0. lia. }
    pose proof (below_012 x Fx L1) as Lx.
    assert (Hin : in_band (JS.Number x) first_row = true).
    { destruct RF as (Fc & Fh & _). apply in_band_intro; trivial.
      change (PV (Cl first_row)) with (PV 0). lia. }
    split; trivial.
    destruct (band_index 0 first_row x first_row_at Hin) as (R & _ & _ & _ & Z0).
    rewrite Z0. apply Z.eqb_eq.
    destruct (raw_index_mono first_row x (next_down 0.12) RF Fx Fp)
      as (_ & _ & Hm & _); trivial.
    apply round_Z_mono in Hm.
    assert (Hz : round_Z (PV (raw_index (next_down 0.12) first_row)) = 0)
      by (vm_compute; reflexivity).
    lia.
Qed.

Lemma AQI_zero_index_absent_witness :
  AQI (num 0.1) = Dash /\
  in_band (num 0.1) first_row = true /\
  JS.strict_eq (interpolate (num 0.1) first_row) 0 = true.
Proof.
  split.
  - apply (proj1 AQI_zero_index_absent); reflexivity.
  - apply (proj2 AQI_zero_index_absent); reflexivity.
Defined.

(** C10.  Whenever the component renders a span, its value is the Number of
    an integer between 1 and 500 and its category is one of the seven
    categories of the table. *)
Theorem AQI_present_range v color aqi cat :
  AQI v = Span color aqi cat ->
  (exists n, 1 <= n <= 500 /\ aqi = JS.of_Z n) /\ In cat categories.
Proof.
  intros H. destruct v as [| | |x]; try discriminate H.
  destruct (AQI_number_cases x) as [Hd|(j & bp & Hj & Hin & Hz & Hs)];
    [congruence|].
  rewrite Hs in H. injection H as _ <- <-.
  destruct (band_index j bp x Hj Hin) as (R & _ & _ & Hof & Z0).
  rewrite Hz in Z0. symmetry in Z0. apply Z.eqb_neq in Z0.
  split; [|eapply rows_category; eauto].
  eexists; split; [|apply Hof; trivial]. lia.
Qed.

Lemma AQI_present_range_witness :
  (exists n, 1 <= n <= 500 /\ 50%float = JS.of_Z n) /\ In "Good"%string categories.
Proof.
  apply (AQI_present_range (num 12) "#227d34"). reflexivity.
Defined.

(** * Further properties of the component and of its callers *)

(** ** The index over the whole table *)

Lemma rows_index_ends j bp :
  nth_error breakpoints j = Some bp ->
  Fin (AQIh bp) = true /\
  round_Z (PV (raw_index (Cl bp) bp)) * 2 ^ (- emin) = PV (AQIl_of bp) /\
  round_Z (PV (raw_index (Ch bp) bp)) * 2 ^ (- emin) = PV (AQIh bp).
Proof.
  revert j bp. apply rows_cases; repeat split; vm_compute; reflexivity.
Qed.

Lemma rows_ends_exact j bp :
  nth_error breakpoints j = Some bp ->
  interpolate (num (Cl bp)) bp = AQIl_of bp /\
  interpolate (num (Ch bp)) bp = AQIh bp.
Proof.
  revert j bp. apply rows_cases; split; reflexivity.
Qed.

Lemma in_band_index_range j bp x :
  nth_error breakpoints j = Some bp -> in_band (JS.Number x) bp = true ->
  PV (AQIl_of bp) <= PV (interpolate (JS.Number x) bp) <= PV (AQIh bp).
Proof.
  intros Hj Hin.
  destruct (in_band_Fin j bp x Hj Hin) as [Fx [Hl Hh]].
  pose proof (rows_facts j bp Hj) as RF.
  destruct (rows_index_ends j bp Hj) as (_ & Elo & Ehi).
  destruct (band_index j bp x Hj Hin) as (_ & _ & Pa & _).
  assert (Fc : Fin (Cl bp) = true) by (destruct RF; tauto).
  destruct (raw_index_mono bp (Cl bp) x RF Fc Fx ltac:(lia) Hl Hh) as (_ & _ & Hlo & Hhi).
  apply round_Z_mono in Hlo, Hhi.
  rewrite Pa, <- Elo, <- Ehi.
  fconst. pose proof (pow2_pos (- emin) ltac:(lia)). nia.
Qed.

(** X1.  The index computed for a Number inside a band lies between the
    band's lower index (the upper index of the band before, or 0) and its
    upper index, and both are reached: the lower bound of the band gives the
    lower index and the upper bound gives the upper index. *)
Theorem AQI_index_within_row j bp x :
  nth_error breakpoints j = Some bp -> in_band (num x) bp = true ->
  JS.le (AQIl_of bp) (interpolate (num x) bp) = true /\
  JS.le (interpolate (num x) bp) (AQIh bp) = true /\
  interpolate (num (Cl bp)) bp = AQIl_of bp /\
  interpolate (num (Ch bp)) bp = AQIh bp.
Proof.
  intros Hj Hin. unfold num in *.
  pose proof (in_band_index_range j bp x Hj Hin) as [Hlo Hhi].
  destruct (rows_facts j bp Hj) as (_ & _ & Fa & _).
  destruct (rows_index_ends j bp Hj) as (Fh & _).
  destruct (band_index j bp x Hj Hin) as (_ & Fi & _).
  destruct (rows_ends_exact j bp Hj) as [E1 E2].
  unfold JS.le. rewrite !leb_PV by (apply Fin_isnum; trivial).
  repeat split; trivial; apply Z.leb_le; trivial.
Qed.

Lemma AQI_index_within_row_witness :
  JS.le 50 (interpolate (num 20) (mkBreakpoint 100 12.1 35.4 "Moderate")) = true /\
  JS.le (interpolate (num 20) (mkBreakpoint 100 12.1 35.4 "Moderate")) 100 = true /\
  interpolate (num 12.1) (mkBreakpoint 100 12.1 35.4 "Moderate") = 50%float /\
  interpolate (num 35.4) (mkBreakpoint 100 12.1 35.4 "Moderate") = 100%float.
Proof.
  apply (AQI_index_within_row 1 (mkBreakpoint 100 12.1 35.4 "Moderate") 20); reflexivity.
Defined.

Lemma rows_index_order j bp :
  nth_error breakpoints j = Some bp ->
  forall j' bp', nth_error breakpoints j' = Some bp' ->
  (j' < j)%nat -> PV (AQIh bp') <= PV (AQIl_of bp).
Proof.
  revert j bp.
  match goal with
  | |- forall j bp, nth_error breakpoints j = Some bp -> @?Q j bp =>
      apply (rows_cases Q)
  end;
  match goal with
  | |- forall j' bp', nth_error breakpoints j' = Some bp' -> @?Q j' bp' =>
      apply (rows_cases Q)
  end;
  (intros Hlt; try lia; apply Z.leb_le; vm_compute; reflexivity).
Qed.

(** The index of a Number is the same whatever row it is computed on, since
    a Number lies in one row at most; across rows the index is monotone. *)
Lemma index_mono_rows j1 bp1 j2 bp2 c1 c2 :
  nth_error breakpoints j1 = Some bp1 -> nth_error breakpoints j2 = Some bp2 ->
  in_band (JS.Number c1) bp1 = true -> in_band (JS.Number c2) bp2 = true ->
  PV c1 <= PV c2 ->
  PV (interpolate (JS.Number c1) bp1) <= PV (interpolate (JS.Number c2) bp2).
Proof.
  intros H1 H2 B1 B2 Hle.
  destruct (in_band_Fin j1 bp1 c1 H1 B1) as [F1 [L1 U1]].
  destruct (in_band_Fin j2 bp2 c2 H2 B2) as [F2 [L2 U2]].
  destruct (lt_eq_lt_dec j1 j2) as [[Hlt|Heq]|Hgt].
  - pose proof (in_band_index_range j1 bp1 c1 H1 B1).
    pose proof (in_band_index_range j2 bp2 c2 H2 B2).
    pose proof (rows_index_order j2 bp2 H2 j1 bp1 H1 Hlt). lia.
  - subst j2. assert (bp2 = bp1) by congruence. subst bp2.
    pose proof (band_index_mono j1 bp1 c1 c2 H1 B1 B2 Hle) as Hm.
    destruct (band_index j1 bp1 c1 H1 B1) as (_ & _ & P1 & _).
    destruct (band_index j1 bp1 c2 H1 B2) as (_ & _ & P2 & _).
    rewrite P1, P2. fconst. pose proof (pow2_pos (- emin) ltac:(lia)). nia.
  - destruct (rows_order j1 bp1 H1 j2 bp2 H2) as [_ Hd]. specialize (Hd Hgt). lia.
Qed.

Lemma AQI_value_cases x a :
  value_of (AQI (JS.Number x)) = Some a ->
  exists j bp, nth_error breakpoints j = Some bp /\
    in_band (JS.Number x) bp = true /\ a = interpolate (JS.Number x) bp.
Proof.
  intros H.
  destruct (AQI_number_cases x) as [Hd|(j & bp & Hj & Hin & _ & Hs)].
  - rewrite Hd in H. discriminate H.
  - rewrite Hs in H. cbn [value_of] in H. injection H as <-. eauto.
Qed.

(** X2.  Over the whole domain, and not only inside one band: when the
    component renders a value for two concentrations [c1 <= c2], the value
    for [c1] is at most the value for [c2]. *)
Theorem AQI_monotone c1 c2 a1 a2 :
  (c1 <=? c2)%float = true ->
  value_of (AQI (num c1)) = Some a1 -> value_of (AQI (num c2)) = Some a2 ->
  JS.le a1 a2 = true.
Proof.
  unfold num. intros Hle H1 H2.
  destruct (AQI_value_cases c1 a1 H1) as (j1 & bp1 & Hj1 & B1 & ->).
  destruct (AQI_value_cases c2 a2 H2) as (j2 & bp2 & Hj2 & B2 & ->).
  apply leb_true in Hle. destruct Hle as (_ & _ & Hle).
  pose proof (index_mono_rows j1 bp1 j2 bp2 c1 c2 Hj1 Hj2 B1 B2 Hle) as Hm.
  destruct (band_index j1 bp1 c1 Hj1 B1) as (_ & F1 & _).
  destruct (band_index j2 bp2 c2 Hj2 B2) as (_ & F2 & _).
  unfold JS.le. rewrite leb_PV by (apply Fin_isnum; trivial).
  apply Z.leb_le. trivial.
Qed.

Lemma AQI_monotone_witness : JS.le 42 266 = true.
Proof.
  apply (AQI_monotone 10 216.5); reflexivity.
Defined.

Lemma first_row_index_below x :
  in_band (JS.Number x) first_row = true -> PV x < PV 0.12 ->
  round_Z (PV (raw_index x first_row)) = 0.
Proof.
  intros Hin Hlt.
  destruct (in_band_Fin 0 first_row x first_row_at Hin) as [Fx [Hl Hh]].
  pose proof (rows_facts 0 first_row first_row_at) as RF.
  assert (Fp : Fin (next_down 0.12) = true) by reflexivity.
  assert (Lp : PV (next_down 0.12) <= PV (Ch first_row))
    by (apply Z.leb_le; vm_compute; reflexivity).
  pose proof (below_012 x Fx Hlt) as Lx.
  destruct (band_index 0 first_row x first_row_at Hin) as (R & _).
  destruct (raw_index_mono first_row x (next_down 0.12) RF Fx Fp Hl Lx Lp)
    as (_ & _ & Hm & _).
  apply round_Z_mono in Hm.
  assert (Hz : round_Z (PV (raw_index (next_down 0.12) first_row)) = 0)
    by (vm_compute; reflexivity).
  lia.
Qed.

Lemma first_row_index_above x :
  in_band (JS.Number x) first_row = true -> PV 0.12 <= PV x ->
  1 <= round_Z (PV (raw_index x first_row)).
Proof.
  intros Hin Hle.
  destruct (in_band_Fin 0 first_row x first_row_at Hin) as [Fx [Hl Hh]].
  pose proof (rows_facts 0 first_row first_row_at) as RF.
  assert (Fp : Fin 0.12 = true) by reflexivity.
  assert (Lp : PV (Cl first_row) <= PV 0.12)
    by (apply Z.leb_le; vm_compute; reflexivity).
  destruct (raw_index_mono first_row 0.12 x RF Fp Fx Lp Hle Hh)
    as (_ & _ & Hm & _).
  apply round_Z_mono in Hm.
  assert (Hz : round_Z (PV (raw_index 0.12 first_row)) = 1)
    by (vm_compute; reflexivity).
  lia.
Qed.

Lemma later_rows_facts j bp :
  nth_error breakpoints (S j) = Some bp ->
  PV 0.12 <= PV (Cl bp) /\ 0 < PV (AQIl_of bp).
Proof.
  revert bp.
  assert (H : forall k bp, nth_error breakpoints k = Some bp ->
            (1 <= k)%nat -> PV 0.12 <= PV (Cl bp) /\ 0 < PV (AQIl_of bp)).
  { apply (rows_cases (fun k bp => (1 <= k)%nat ->
             PV 0.12 <= PV (Cl bp) /\ 0 < PV (AQIl_of bp)));
    intros Hk; try lia; split;
    first [apply Z.leb_le | apply Z.ltb_lt]; vm_compute; reflexivity. }
  intros bp Hj. apply (H (S j) bp Hj). lia.
Qed.

(** The index of a Number in a row is zero exactly below 0.12. *)
Lemma index_zero_iff j bp x :
  nth_error breakpoints j = Some bp -> in_band (JS.Number x) bp = true ->
  (JS.strict_eq (interpolate (JS.Number x) bp) 0 = true <-> PV x < PV 0.12).
Proof.
  intros Hj Hin.
  destruct (band_index j bp x Hj Hin) as (R & _ & Pa & _ & Z0).
  rewrite Z0, Z.eqb_eq.
  destruct (in_band_Fin j bp x Hj Hin) as [Fx [Hl Hh]].
  destruct j as [|j].
  - assert (bp = first_row) by (rewrite first_row_at in Hj; congruence). subst bp.
    split.
    + intros Hz. destruct (Z_lt_le_dec (PV x) (PV 0.12)) as [|Hge]; trivial.
      pose proof (first_row_index_above x Hin Hge). lia.
    + apply first_row_index_below; trivial.
  - destruct (later_rows_facts j bp Hj) as [Hc Hpos].
    pose proof (in_band_index_range (S j) bp x Hj Hin) as [Hlo _].
    rewrite Pa in Hlo. split; intros H; [|lia].
    rewrite H in Hlo. lia.
Qed.

(** X3.  The component renders an index exactly for the Numbers that are at
    least 0.12 and lie in a band of the table; below 0.12, in the gaps
    between the bands and outside [0, 500.4] it renders the dash. *)
Theorem AQI_rendered_iff x :
  AQI (num x) <> Dash <->
  (0.12 <=? x)%float = true /\
  exists bp, In bp breakpoints /\ in_band (num x) bp = true.
Proof.
  unfold num. split.
  - intros Hr.
    destruct (AQI_number_cases x) as [Hd|(j & bp & Hj & Hin & Hz & _)];
      [contradiction|].
    destruct (in_band_num x bp Hin) as [Hx _].
    split; [|exists bp; split; trivial; eapply nth_error_In; eauto].
    rewrite leb_PV by (trivial; reflexivity). apply Z.leb_le.
    destruct (Z_lt_le_dec (PV x) (PV 0.12)) as [Hlt|]; trivial.
    apply (index_zero_iff j bp x Hj Hin) in Hlt. congruence.
  - intros [Hge (bp & Hb & Hin)].
    destruct (rows_In bp Hb) as [j Hj].
    rewrite (AQI_in_band j bp x Hj Hin). unfold index_result.
    destruct (JS.strict_eq (interpolate (JS.Number x) bp) 0) eqn:E; [|discriminate].
    apply (index_zero_iff j bp x Hj Hin) in E.
    apply leb_true in Hge. lia.
Qed.

Lemma AQI_rendered_iff_witness : AQI (num 0.12) <> Dash.
Proof.
  apply (proj2 (AQI_rendered_iff 0.12)). split; [reflexivity|].
  exists first_row. split; [left|]; reflexivity.
Defined.

(** The colour of an integer index. *)
Lemma color_of_int aqi n :
  Fin aqi = true -> PV aqi = n * 2 ^ (- emin) ->
  color_of aqi = threshold_color n.
Proof.
  intros Fa Pa. fconst. pose proof (pow2_pos (- emin) ltac:(lia)) as HP.
  assert (T : forall t k, Fin t = true -> PV t = k * 2 ^ (- emin) ->
              JS.le aqi t = (n <=? k)).
  { intros t k Ft Pt. unfold JS.le.
    rewrite leb_PV by (apply Fin_isnum; trivial). rewrite Pa, Pt.
    destruct (Z.leb_spec (n * 2 ^ (- emin)) (k * 2 ^ (- emin)));
    destruct (Z.leb_spec n k); trivial; nia. }
  unfold color_of, threshold_color.
  rewrite (T 50%float 50), (T 100%float 100), (T 150%float 150),
          (T 200%float 200), (T 300%float 300); reflexivity.
Qed.

Lemma rows_colors j bp :
  nth_error breakpoints j = Some bp ->
  exists lo hi,
    PV (AQIl_of bp) = lo * 2 ^ (- emin) /\ PV (AQIh bp) = hi * 2 ^ (- emin) /\
    forall n, lo < n <= hi -> threshold_color n = color_of (AQIh bp).
Proof.
  revert j bp. apply rows_cases;
  [ exists 0, 50 | exists 50, 100 | exists 100, 150 | exists 150, 200
  | exists 200, 300 | exists 300, 400 | exists 400, 500 ];
  (split; [reflexivity|]; split; [reflexivity|]);
  intros n Hn; unfold threshold_color;
  repeat match goal with
         | |- context [?a <=? ?b] => destruct (Z.leb_spec a b); try lia
         end; reflexivity.
Qed.

(** The row before a row that is not the first. *)
Lemma row_before j bp :
  nth_error breakpoints (S j) = Some bp ->
  exists prev, nth_error breakpoints j = Some prev /\ AQIl_of bp = AQIh prev.
Proof.
  intros Hj.
  destruct (nth_error breakpoints j) as [prev|] eqn:Hp.
  - exists prev. split; trivial. eapply AQIl_prev; eauto.
  - apply nth_error_None in Hp.
    assert (nth_error breakpoints (S j) = None) by (apply nth_error_None; lia).
    congruence.
Qed.

(** X4.  A rendered value has the category of its band.  Its colour is the
    colour of the band's upper index, unless the value is the band's lower
    index: then the band is not the first one and the colour is that of the
    band before, so that this seam value is shown with the category of its
    band in the colour of the band below. *)
Theorem AQI_color_of_band j bp x color aqi cat :
  nth_error breakpoints j = Some bp -> in_band (num x) bp = true ->
  AQI (num x) = Span color aqi cat ->
  cat = category bp /\
  if JS.strict_eq aqi (AQIl_of bp)
  then exists j' prev, j = S j' /\ nth_error breakpoints j' = Some prev /\
                       color = color_of (AQIh prev)
  else color = color_of (AQIh bp).
Proof.
  unfold num. intros Hj Hin Hs.
  rewrite (AQI_in_band j bp x Hj Hin) in Hs. unfold index_result in Hs.
  destruct (JS.strict_eq (interpolate (JS.Number x) bp) 0) eqn:Hz; [discriminate Hs|].
  injection Hs as <- <- <-. split; trivial.
  destruct (band_index j bp x Hj Hin) as (_ & Fi & Pa & _).
  destruct (rows_colors j bp Hj) as (lo & hi & Plo & Phi & Hc).
  pose proof (in_band_index_range j bp x Hj Hin) as [Hlo Hhi].
  destruct (rows_facts j bp Hj) as (_ & _ & Fa & _).
  fconst. pose proof (pow2_pos (- emin) ltac:(lia)) as HP.
  destruct (JS.strict_eq (interpolate (JS.Number x) bp) (AQIl_of bp)) eqn:Hne;
  unfold JS.strict_eq in Hne; rewrite eqb_PV in Hne by (apply Fin_isnum; trivial).
  - apply Z.eqb_eq in Hne.
    destruct j as [|j'].
    + exfalso. rewrite (AQIl_first bp Hj) in Hne.
      unfold JS.strict_eq in Hz.
      rewrite eqb_PV in Hz by (apply Fin_isnum; trivial; reflexivity).
      apply Z.eqb_neq in Hz. congruence.
    + destruct (row_before j' bp Hj) as (prev & Hp & Eprev).
      exists j', prev. repeat split; trivial.
      destruct (rows_colors j' prev Hp) as (lo' & hi' & _ & Phi' & _).
      destruct (rows_index_ends j' prev Hp) as (Fh' & _).
      rewrite (color_of_int _ _ Fi Pa), (color_of_int _ _ Fh' Phi').
      f_equal. rewrite Eprev, Pa, Phi' in Hne. nia.
  - apply Z.eqb_neq in Hne.
    rewrite (color_of_int _ _ Fi Pa). apply Hc.
    rewrite Pa, Plo in *. rewrite Phi in Hhi. nia.
Qed.

Lemma AQI_color_of_band_witness :
  "Moderate"%string = category (mkBreakpoint 100 12.1 35.4 "Moderate") /\
  if JS.strict_eq 50 (AQIl_of (mkBreakpoint 100 12.1 35.4 "Moderate"))
  then exists j' prev, 1%nat = S j' /\ nth_error breakpoints j' = Some prev /\
                       "#227d34"%string = color_of (AQIh prev)
  else "#227d34"%string = color_of (AQIh (mkBreakpoint 100 12.1 35.4 "Moderate")).
Proof.
  apply (AQI_color_of_band 1 (mkBreakpoint 100 12.1 35.4 "Moderate") 12.1);
  reflexivity.
Defined.

(** ** The sample of the air-quality response *)

Lemma index_last {A : Type} (a : list A) (d : A) :
  a <> [] -> JS.index a (Z.of_nat (List.length a) - 1) = Some (last a d).
Proof.
  intros Ha. unfold JS.index.
  destruct a as [|x a]; [contradiction|clear Ha].
  change (List.length (x :: a)) with (S (List.length a)).
  replace (Z.of_nat (S (List.length a)) - 1 <? 0) with false
    by (symmetry; apply Z.ltb_ge; lia).
  replace (Z.to_nat (Z.of_nat (S (List.length a)) - 1)) with (List.length a) by lia.
  revert x. induction a as [|y a IH]; intros x; [reflexivity|].
  change (List.length (y :: a)) with (S (List.length a)).
  cbn [nth_error]. rewrite (IH y). reflexivity.
Qed.

Lemma index_beyond {A : Type} (a : list A) (i : Z) :
  Z.of_nat (List.length a) <= i -> JS.index a i = None.
Proof.
  intros H. unfold JS.index.
  destruct (Z.ltb_spec i 0); trivial.
  apply nth_error_None. lia.
Qed.

Lemma index_nth {A : Type} (a : list A) (i : nat) (d : A) :
  (i < List.length a)%nat -> JS.index a (Z.of_nat i) = Some (nth i a d).
Proof.
  intros H. unfold JS.index.
  replace (Z.of_nat i <? 0) with false by (symmetry; apply Z.ltb_ge; lia).
  rewrite Nat2Z.id. apply nth_error_nth'. trivial.
Qed.

Lemma idx_time h tm :
  Hourly.time h = Some tm -> tm <> [] ->
  idx (Some h) = Z.of_nat (List.length tm) - 1.
Proof.
  intros Ht Hn. unfold idx. rewrite Ht. cbv zeta.
  destruct tm as [|x tm]; [contradiction|].
  change (List.length (x :: tm)) with (S (List.length tm)).
  replace (Z.of_nat (S (List.length tm)) =? 0) with false
    by (symmetry; apply Z.eqb_neq; lia).
  reflexivity.
Qed.

Lemma idx_no_time h :
  Hourly.time h = None \/ Hourly.time h = Some [] -> idx (Some h) = 0.
Proof. intros [H|H]; unfold idx; rewrite H; reflexivity. Qed.

(** X5.  When [hourly.time] and [hourly.pm2_5] are arrays of the same
    non-zero length, the sample [aqiData.pm2_5] is the last entry of the
    series. *)
Theorem sample_is_last_of_aligned_series h tm a :
  Hourly.time h = Some tm -> Hourly.pm2_5 h = Some a ->
  List.length a = List.length tm -> a <> [] ->
  aqi_field AqiData.pm2_5 (aqiData (Some h)) = last a JS.Undefined.
Proof.
  intros Ht Ha Hlen Hne.
  assert (Htm : tm <> []) by (destruct tm; [destruct a; simpl in *; congruence|discriminate]).
  cbn [aqiData aqi_field AqiData.pm2_5].
  rewrite (idx_time h tm Ht Htm), Ha, <- Hlen. unfold at_idx.
  rewrite (index_last a JS.Undefined Hne). reflexivity.
Qed.

Lemma sample_is_last_of_aligned_series_witness :
  aqi_field AqiData.pm2_5
    (aqiData (Some (Hourly.mk (Some ["t0"; "t1"]%string)
                      (Some [JS.Number 7; JS.Number 20]) None None None None None)))
  = JS.Number 20.
Proof.
  apply (sample_is_last_of_aligned_series _ ["t0"; "t1"]%string [JS.Number 7; JS.Number 20]);
  try reflexivity. discriminate.
Defined.

(** X6.  The sample is taken at the last position of [hourly.time], not of
    the series: a series at least as long as a non-empty [time] yields its
    entry at position [time.length - 1]. *)
Theorem sample_at_end_of_time h tm a :
  Hourly.time h = Some tm -> Hourly.pm2_5 h = Some a ->
  tm <> [] -> (List.length tm <= List.length a)%nat ->
  aqi_field AqiData.pm2_5 (aqiData (Some h)) = nth (List.length tm - 1) a JS.Undefined.
Proof.
  intros Ht Ha Hne Hlen.
  cbn [aqiData aqi_field AqiData.pm2_5].
  rewrite (idx_time h tm Ht Hne), Ha. unfold at_idx.
  assert (Hl : (0 < List.length tm)%nat) by (destruct tm; [contradiction|simpl; lia]).
  replace (Z.of_nat (List.length tm) - 1) with (Z.of_nat (List.length tm - 1)) by lia.
  rewrite (index_nth a (List.length tm - 1) JS.Undefined) by lia. reflexivity.
Qed.

Lemma sample_at_end_of_time_witness :
  aqi_field AqiData.pm2_5
    (aqiData (Some (Hourly.mk (Some ["t0"]%string)
                      (Some [JS.Number 7; JS.Number 20]) None None None None None)))
  = JS.Number 7.
Proof.
  apply (sample_at_end_of_time _ ["t0"]%string [JS.Number 7; JS.Number 20]);
  try reflexivity; [discriminate|simpl; lia].
Defined.

(** X7.  When [hourly.time] is missing or empty, [idx] stays 0 and the sample
    is the first entry of the series ([undefined] for an empty series). *)
Theorem sample_without_time_is_first h a :
  Hourly.time h = None \/ Hourly.time h = Some [] ->
  Hourly.pm2_5 h = Some a ->
  aqi_field AqiData.pm2_5 (aqiData (Some h)) = hd JS.Undefined a.
Proof.
  intros Ht Ha. cbn [aqiData aqi_field AqiData.pm2_5].
  rewrite (idx_no_time h Ht), Ha. destruct a; reflexivity.
Qed.

Lemma sample_without_time_is_first_witness :
  aqi_field AqiData.pm2_5
    (aqiData (Some (Hourly.mk None (Some [JS.Number 7; JS.Number 20])
                      None None None None None)))
  = JS.Number 7.
Proof.
  apply (sample_without_time_is_first _ [JS.Number 7; JS.Number 20]);
  [left|]; reflexivity.
Defined.

(** X8.  When [json.hourly] is missing, or the series [pm2_5] is missing, or
    the series is shorter than [time], the sample is [undefined], the index
    line renders the dash and [format] renders the dash for the value. *)
Theorem missing_sample_is_dash NumberToString hourly units :
  hourly = None \/
  (exists h, hourly = Some h /\
     (Hourly.pm2_5 h = None \/
      exists tm a, Hourly.time h = Some tm /\ Hourly.pm2_5 h = Some a /\
                   (List.length a < List.length tm)%nat)) ->
  aqi_field AqiData.pm2_5 (aqiData hourly) = JS.Undefined /\
  AQI (aqi_field AqiData.pm2_5 (aqiData hourly)) = Dash /\
  format NumberToString (aqi_field AqiData.pm2_5 (aqiData hourly)) units = "—"%string.
Proof.
  intros H.
  assert (E : aqi_field AqiData.pm2_5 (aqiData hourly) = JS.Undefined).
  { destruct H as [->|(h & -> & [Hn|(tm & a & Ht & Ha & Hlen)])].
    - reflexivity.
    - cbn [aqiData aqi_field AqiData.pm2_5]. rewrite Hn. reflexivity.
    - cbn [aqiData aqi_field AqiData.pm2_5].
      assert (Htm : tm <> []) by (destruct tm; [simpl in Hlen; lia|discriminate]).
      rewrite (idx_time h tm Ht Htm), Ha. unfold at_idx.
      rewrite index_beyond by lia. reflexivity. }
  rewrite E. repeat split.
Qed.

Lemma missing_sample_is_dash_witness :
  aqi_field AqiData.pm2_5 (aqiData None) = JS.Undefined /\
  AQI (aqi_field AqiData.pm2_5 (aqiData None)) = Dash /\
  format (fun _ => "0"%string) (aqi_field AqiData.pm2_5 (aqiData None))
    (Some " µg/m³"%string) = "—"%string.
Proof.
  apply missing_sample_is_dash. left. reflexivity.
Defined.

(** ** One run of [getWeatherData] *)

(** X10.  After a run of [getWeatherData], whatever the two requests did and
    whatever the state was before, [loading] is false and the state holds
    either a result and no error, or an error message and no result. *)
Theorem getWeatherData_error_or_result TypeError_message resWeather resAQI st :
  let st' := getWeatherData TypeError_message resWeather resAQI st in
  loading st' = false /\
  ((err st' = None /\ exists r, result st' = Some r) \/
   (result st' = None /\ exists message, err st' = Some message)).
Proof.
  cbv zeta. unfold getWeatherData.
  destruct (try_block TypeError_message resWeather resAQI) as [r|m]; cbn.
  - split; trivial. left. eauto.
  - split; trivial. right. eauto.
Qed.



(** X12.  When the weather response is not [ok], the run ends with the error
    "Failed weather fetch" and no result, whatever the air-quality request
    would have done. *)
Theorem getWeatherData_weather_not_ok TypeError_message w resAQI st :
  ok w = false ->
  err (getWeatherData TypeError_message (Normal w) resAQI st)
  = Some "Failed weather fetch"%string /\
  result (getWeatherData TypeError_message (Normal w) resAQI st) = None.
Proof.
  intros H. unfold getWeatherData, try_block. cbn. rewrite H. cbn. split; reflexivity.
Qed.

Lemma getWeatherData_weather_not_ok_witness :
  err (getWeatherData (fun p => p) (Normal (mkResponse false (Normal NullBody)))
         (Throw "offline") (mkState false None None))
  = Some "Failed weather fetch"%string /\
  result (getWeatherData (fun p => p) (Normal (mkResponse false (Normal NullBody)))
            (Throw "offline") (mkState false None None)) = None.
Proof.
  apply getWeatherData_weather_not_ok. reflexivity.
Defined.

(** X13.  An air-quality response that is not [ok] is no error: with a
    weather response that is [ok] and whose body is not [null] the run ends
    with the weather, [aqi] null and no error (the body of the air-quality
    response is not read), and the index line renders the dash. *)
Theorem getWeatherData_aqi_not_ok TypeError_message w a current st :
  ok w = true -> json w = Normal (ObjectBody current) -> ok a = false ->
  let st' := getWeatherData TypeError_message (Normal w) (Normal a) st in
  err st' = None /\ result st' = Some (mkResult current None) /\
  AQI_line st' = Some Dash.
Proof.
  intros Hw Hj Ha. cbv zeta. unfold AQI_line, getWeatherData, try_block. cbn.
  rewrite Hw, Hj. cbn. rewrite Ha. cbn. repeat split.
Qed.

Lemma getWeatherData_aqi_not_ok_witness :
  let st' := getWeatherData (fun p => p) (Normal (mkResponse true (Normal (ObjectBody None))))
               (Normal (mkResponse false (Throw "x"))) (mkState false None None) in
  err st' = None /\ result st' = Some (mkResult None None) /\
  AQI_line st' = Some Dash.
Proof.
  apply getWeatherData_aqi_not_ok; reflexivity.
Defined.

(** X14.  When the air-quality request rejects, or its response is [ok] and
    its body cannot be read, the run ends with that error message and no
    result: the weather that was fetched is discarded, whatever its body. *)
Theorem getWeatherData_aqi_failure_discards_weather
    TypeError_message w a body message st :
  ok w = true -> json w = Normal body ->
  (a = Throw message \/
   exists r, a = Normal r /\ ok r = true /\ json r = Throw message) ->
  err (getWeatherData TypeError_message (Normal w) a st) = Some message /\
  result (getWeatherData TypeError_message (Normal w) a st) = None.
Proof.
  intros Hw Hj Ha. unfold getWeatherData, try_block. cbn. rewrite Hw, Hj. cbn.
  destruct Ha as [->|(r & -> & Hr & Hjr)]; cbn.
  - split; reflexivity.
  - rewrite Hr, Hjr. cbn. split; reflexivity.
Qed.

Lemma getWeatherData_aqi_failure_discards_weather_witness :
  err (getWeatherData (fun p => p) (Normal (mkResponse true (Normal (ObjectBody None))))
         (Throw "offline") (mkState false None None)) = Some "offline"%string /\
  result (getWeatherData (fun p => p) (Normal (mkResponse true (Normal (ObjectBody None))))
            (Throw "offline") (mkState false None None)) = None.
Proof.
  apply (getWeatherData_aqi_failure_discards_weather _ _ _ (ObjectBody None));
  try reflexivity.
  left. reflexivity.
Defined.

(** X15.  When both responses are [ok] with bodies that are not [null] and
    [hourly.time] and [hourly.pm2_5] have the same non-zero length, the index
    line renders the component on the last entry of [hourly.pm2_5]. *)
Theorem getWeatherData_shows_last_sample
    TypeError_message w a current h tm series st :
  ok w = true -> json w = Normal (ObjectBody current) ->
  ok a = true -> json a = Normal (ObjectBody (Some h)) ->
  Hourly.time h = Some tm -> Hourly.pm2_5 h = Some series ->
  List.length series = List.length tm -> series <> [] ->
  AQI_line (getWeatherData TypeError_message (Normal w) (Normal a) st)
  = Some (AQI (last series JS.Undefined)).
Proof.
  intros Hw Hj Ha Hja Ht Hs Hlen Hne.
  unfold AQI_line, getWeatherData, try_block. cbn. rewrite Hw, Hj. cbn.
  rewrite Ha, Hja.
  cbn [bind negb result setLoading setResult setErr aqi read_property].
  f_equal. f_equal.
  assert (Htm : tm <> []) by (destruct tm; [destruct series; simpl in *; congruence|discriminate]).
  cbn [aqiData aqi_field AqiData.pm2_5].
  rewrite (idx_time h tm Ht Htm), Hs, <- Hlen. unfold at_idx.
  rewrite (index_last series JS.Undefined Hne). reflexivity.
Qed.

Lemma getWeatherData_shows_last_sample_witness :
  AQI_line (getWeatherData (fun p => p)
              (Normal (mkResponse true (Normal (ObjectBody None))))
              (Normal (mkResponse true (Normal (ObjectBody (Some
                 (Hourly.mk (Some ["t0"; "t1"]%string)
                    (Some [JS.Number 7; JS.Number 20]) None None None None None))))))
              (mkState false None None))
  = Some (AQI (last [JS.Number 7; JS.Number 20] JS.Undefined)).
Proof.
  apply (getWeatherData_shows_last_sample _ _ _ None
           (Hourly.mk (Some ["t0"; "t1"]%string)
              (Some [JS.Number 7; JS.Number 20]) None None None None None)
           ["t0"; "t1"]%string);
  try reflexivity. discriminate.
Defined.



(** X17.  When the air-quality response is [ok] and its body is [null],
    reading [json.hourly] at line 82 throws: the run ends with the message of
    that TypeError and no result, whatever the body of the weather
    response. *)
Theorem getWeatherData_null_aqi_body TypeError_message w a body st :
  ok w = true -> json w = Normal body ->
  ok a = true -> json a = Normal NullBody ->
  err (getWeatherData TypeError_message (Normal w) (Normal a) st)
  = Some (TypeError_message "hourly"%string) /\
  result (getWeatherData TypeError_message (Normal w) (Normal a) st) = None.
Proof.
  intros Hw Hj Ha Hja. unfold getWeatherData, try_block. cbn. rewrite Hw, Hj. cbn.
  rewrite Ha, Hja. cbn. split; reflexivity.
Qed.

Lemma getWeatherData_null_aqi_body_witness :
  err (getWeatherData (fun p => p) (Normal (mkResponse true (Normal (ObjectBody None))))
         (Normal (mkResponse true (Normal NullBody))) (mkState false None None))
  = Some "hourly"%string /\
  result (getWeatherData (fun p => p) (Normal (mkResponse true (Normal (ObjectBody None))))
            (Normal (mkResponse true (Normal NullBody))) (mkState false None None)) = None.
Proof.
  apply (getWeatherData_null_aqi_body (fun p => p) _ _ (ObjectBody None)); reflexivity.
Defined.
